(** * gohistogram: the weighted (exponentially decayed) histogram

    A shallow embedding of [weightedhistogram.go].  The Go code computes on
    [float64]; every function below is transcribed once, over an interface
    [Float64] that lists exactly the operations and literals the source uses.
    Two instances are given:

    - [binary64]: IEEE 754 binary64 through Rocq's primitive floats, which is
      what the Go program runs on (NaN, infinities and rounding included;
      every operation rounds on its own, as on amd64 where Go fuses none).
      What is proved of the code is proved on this instance, or on every
      instance at once;
    - [rational]: the rationals [Q], an idealisation without rounding,
      overflow or NaN, in which [x / 0] is [0].  The code does not run on
      it, and its results can differ from the code's even on inputs that
      float64 represents exactly.  It serves only for a few further
      properties that are stated in exact arithmetic and say so.

    A Go run-time panic (the index [-1] in [trim]) is an explicit outcome.
    [String] is modelled up to what [fmt] prints for a [float64] and what
    the conversion [int(x)] yields, which it takes as parameters. *)

From Stdlib Require Import List Bool Arith ZArith QArith Lia Lqa.
From Stdlib Require Import Sorting.Sorted.
From Stdlib Require Import Floats.
From Stdlib Require String Ascii Qround.
Import ListNotations.

Set Implicit Arguments.

(** ** The numeric interface *)

Class Float64 (F : Type) : Type := {
  f0 : F;                       (* the literals 0 and 0.0 *)
  f1 : F;                       (* the literal 1, and the step of [Count++] *)
  fneg1 : F;                    (* the literal -1 *)
  f1e99 : F;                    (* the literal 1e99 *)
  fadd : F -> F -> F;
  fsub : F -> F -> F;
  fmul : F -> F -> F;
  fdiv : F -> F -> F;
  feqb : F -> F -> bool;        (* == *)
  fltb : F -> F -> bool;        (* <  *)
  fleb : F -> F -> bool         (* <= *)
}.

(** [a > b] in Go is [b < a]. *)
Definition fgtb {F} `{Float64 F} (a b : F) : bool := fltb b a.

(** Strict comparison on the rationals, as a boolean. *)
Definition Qlt_bool (a b : Q) : bool := negb (Qle_bool b a).

#[global] Instance binary64 : Float64 float := {|
  f0 := 0%float;
  f1 := 1%float;
  fneg1 := (-1)%float;
  f1e99 := 0x1.d42aea2879f2ep+328%float;   (* 1e99 rounded to binary64 *)
  fadd := PrimFloat.add;
  fsub := PrimFloat.sub;
  fmul := PrimFloat.mul;
  fdiv := PrimFloat.div;
  feqb := PrimFloat.eqb;
  fltb := PrimFloat.ltb;
  fleb := PrimFloat.leb
|}.

(** The literal [1e99] as float64 holds it: the binary64 number nearest to
    [10^99], which is [0x1.d42aea2879f2ep+328], a little below [10^99]. *)
Definition Q1e99 : Q := inject_Z (0x1d42aea2879f2e * 2 ^ 276).

#[global] Instance rational : Float64 Q := {|
  f0 := 0%Q;
  f1 := 1%Q;
  fneg1 := (-1)%Q;
  f1e99 := Q1e99;
  fadd := Qplus;
  fsub := Qminus;
  fmul := Qmult;
  fdiv := Qdiv;
  feqb := Qeq_bool;
  fltb := Qlt_bool;
  fleb := Qle_bool
|}.

(** ** Outcomes of a call *)

Inductive outcome (A : Type) : Type :=
| Ok (a : A)        (* the call returns *)
| Panic             (* the call panics: index out of range *)
| OutOfFuel.        (* the model's loop bound was too small (never with [trim]'s) *)

Arguments Ok {A} a.
Arguments Panic {A}.
Arguments OutOfFuel {A}.

Section Histogram.

Context {F : Type} `{Float64 F}.

(** ** Data *)

(** Modelled from the spec: the [Bin] struct is declared in another file of
    the package; it is a plain record of two [float64] fields, the
    representative value and the accumulated weight. *)
Record Bin : Type := mkBin { Value : F; Count : F }.

Record WeightedHistogram : Type := mkWH {
  Bins : list Bin;
  Maxbins : Z;
  Total : F;
  Alpha : F
}.

Definition NewWeightedHistogram (n : Z) (alpha : F) : WeightedHistogram :=
  {| Bins := []; Maxbins := n; Total := f0; Alpha := alpha |}.

(** ** Decay *)

Definition ewma (existingVal newVal alpha : F) : F :=
  fadd (fmul newVal (fsub f1 alpha)) (fmul existingVal alpha).

(** [scaleDown]'s loop from index [i] on. *)
Fixpoint scaleDown_from (alpha : F) (except i : nat) (bins : list Bin) : list Bin :=
  match bins with
  | [] => []
  | b :: rest =>
      (if Nat.eqb i except then b
       else {| Value := Value b; Count := ewma (Count b) f0 alpha |})
      :: scaleDown_from alpha except (S i) rest
  end.

Definition scaleDown (alpha : F) (except : nat) (bins : list Bin) : list Bin :=
  scaleDown_from alpha except 0 bins.

(** ** Compaction *)

(** The inner loop of [trim] from index [i >= 1] on; [prev] is
    [Bins[i-1].Value].  It returns [minDeltaIndex]. *)
Fixpoint closest_from (prev : F) (rest : list Bin) (i : nat)
    (minDelta : F) (minDeltaIndex : nat) : nat :=
  match rest with
  | [] => minDeltaIndex
  | b :: tl =>
      let delta := fsub (Value b) prev in
      if fltb delta minDelta
      then closest_from (Value b) tl (S i) delta i
      else closest_from (Value b) tl (S i) minDelta minDeltaIndex
  end.

Definition closest (bins : list Bin) : nat :=
  match bins with
  | [] => 0%nat
  | b :: rest => closest_from (Value b) rest 1 f1e99 0
  end.

Definition mergedbin (a b : Bin) : Bin :=
  let totalCount := fadd (Count a) (Count b) in
  {| Value := fdiv (fadd (fmul (Value a) (Count a)) (fmul (Value b) (Count b)))
                   totalCount;
     Count := totalCount |}.

(** Merging [Bins[minDeltaIndex-1]] and [Bins[minDeltaIndex]]; with
    [minDeltaIndex = 0] the first index is [-1] and Go panics. *)
Definition merge_at (bins : list Bin) (minDeltaIndex : nat) : outcome (list Bin) :=
  match minDeltaIndex with
  | O => Panic
  | S j =>
      match nth_error bins j, nth_error bins (S j) with
      | Some a, Some b =>
          Ok (firstn j bins ++ mergedbin a b :: skipn (S (S j)) bins)
      | _, _ => Panic
      end
  end.

Fixpoint trim_loop (fuel : nat) (maxbins : Z) (bins : list Bin)
    : outcome (list Bin) :=
  if (Z.of_nat (length bins) >? maxbins)%Z then
    match fuel with
    | O => OutOfFuel
    | S fuel' =>
        match merge_at bins (closest bins) with
        | Ok bins' => trim_loop fuel' maxbins bins'
        | Panic => Panic
        | OutOfFuel => OutOfFuel
        end
    end
  else Ok bins.

Definition sumCount (bins : list Bin) : F :=
  fold_left (fun total b => fadd total (Count b)) bins f0.

Definition trim (h : WeightedHistogram) : outcome WeightedHistogram :=
  match trim_loop (S (length (Bins h))) (Maxbins h) (Bins h) with
  | Ok bins' =>
      Ok {| Bins := bins'; Maxbins := Maxbins h;
            Total := sumCount (Bins h); Alpha := Alpha h |}
  | Panic => Panic
  | OutOfFuel => OutOfFuel
  end.

(** ** Insertion *)

(** The loop of [Add]: the new bin list and the index handed to the deferred
    [scaleDown], if any ([None] on the append path, which defers none). *)
Fixpoint add_scan (n : F) (bins : list Bin) : list Bin * option nat :=
  match bins with
  | [] => ([{| Value := n; Count := f1 |}], None)
  | b :: rest =>
      if feqb (Value b) n then
        ({| Value := Value b; Count := fadd (Count b) f1 |} :: rest, Some 0%nat)
      else if fgtb (Value b) n then
        ({| Value := n; Count := f1 |} :: b :: rest, Some 0%nat)
      else
        let (rest', touched) := add_scan n rest in
        (b :: rest', option_map S touched)
  end.

(** [Add] up to the deferred [trim]: the scan, then the deferred [scaleDown]. *)
Definition add_decay (h : WeightedHistogram) (n : F) : WeightedHistogram :=
  let (bins, touched) := add_scan n (Bins h) in
  {| Bins := match touched with
             | Some i => scaleDown (Alpha h) i bins
             | None => bins
             end;
     Maxbins := Maxbins h; Total := Total h; Alpha := Alpha h |}.

(** Deferred calls run last-in first-out: [scaleDown], then [trim]. *)
Definition Add (h : WeightedHistogram) (n : F) : outcome WeightedHistogram :=
  trim (add_decay h n).

(** A sequence of [Add] calls; the first panic ends it. *)
Fixpoint AddAll (h : WeightedHistogram) (samples : list F)
    : outcome WeightedHistogram :=
  match samples with
  | [] => Ok h
  | n :: rest =>
      match Add h n with
      | Ok h' => AddAll h' rest
      | Panic => Panic
      | OutOfFuel => OutOfFuel
      end
  end.

(** ** Queries *)

Fixpoint quantile_scan (count : F) (bins : list Bin) : F :=
  match bins with
  | [] => fneg1
  | b :: rest =>
      let count := fsub count (Count b) in
      if fleb count f0 then Value b else quantile_scan count rest
  end.

Definition Quantile (h : WeightedHistogram) (q : F) : F :=
  quantile_scan (fmul q (Total h)) (Bins h).

Definition CDF (h : WeightedHistogram) (x : F) : F :=
  fdiv (fold_left (fun count b =>
                     if fleb (Value b) x then fadd count (Count b) else count)
                  (Bins h) f0)
       (Total h).

Definition Mean (h : WeightedHistogram) : F :=
  if feqb (Total h) f0 then f0
  else fdiv (fold_left (fun sum b => fadd sum (fmul (Value b) (Count b)))
                       (Bins h) f0)
            (Total h).

Definition Variance (h : WeightedHistogram) : F :=
  if feqb (Total h) f0 then f0
  else
    let mean := Mean h in
    fdiv (fold_left (fun sum b =>
                       fadd sum (fmul (fmul (Count b) (fsub (Value b) mean))
                                      (fsub (Value b) mean)))
                    (Bins h) f0)
         (Total h).

(** The method [Count]; the name is taken here by the field of [Bin]. *)
Definition CountOf (h : WeightedHistogram) : F := Total h.

End Histogram.

Arguments Bin F : clear implicits.
Arguments WeightedHistogram F : clear implicits.

Unset Implicit Arguments.

(** ** Rendering *)

Section Rendering.

Context {F : Type} `{Float64 F}.

(** What [fmt] prints for a [float64] operand, the conversion [int(x)] and
    the literal [200] are not part of the numeric interface above; [String]
    takes them as parameters. *)
Variable show : F -> String.string.
Variable toInt : F -> Z.
Variable f200 : F.

Definition tab : String.string :=
  String.String (Ascii.ascii_of_nat 9) String.EmptyString.

Definition newline : String.string :=
  String.String (Ascii.ascii_of_nat 10) String.EmptyString.

Definition space : String.string :=
  String.String (Ascii.ascii_of_nat 32) String.EmptyString.

(** [fmt.Sprintln] of two and of three operands: a space between operands,
    a newline at the end. *)
Definition Sprintln2 (a b : String.string) : String.string :=
  String.append a (String.append space (String.append b newline)).

Definition Sprintln3 (a b c : String.string) : String.string :=
  String.append a
    (String.append space
       (String.append b (String.append space (String.append c newline)))).

(** The inner loop: [k] times [bar += "."]. *)
Fixpoint dots (k : nat) : String.string :=
  match k with
  | O => String.EmptyString
  | S k' => String.append (dots k')
              (String.String (Ascii.ascii_of_nat 46) String.EmptyString)
  end.

(** The bound of the inner loop, [int(Count/Total*200)]; the loop body runs
    that many times, and not at all when the bound is not positive. *)
Definition bar_length (h : WeightedHistogram F) (b : Bin F) : nat :=
  Z.to_nat (toInt (fmul (fdiv (Count b) (Total h)) f200)).

Definition bar (h : WeightedHistogram F) (b : Bin F) : String.string :=
  dots (bar_length h b).

Definition Total_label : String.string :=
  String.String (Ascii.ascii_of_nat 84)
    (String.String (Ascii.ascii_of_nat 111)
       (String.String (Ascii.ascii_of_nat 116)
          (String.String (Ascii.ascii_of_nat 97)
             (String.String (Ascii.ascii_of_nat 108)
                (String.String (Ascii.ascii_of_nat 58) String.EmptyString))))).

(** The method [String]. *)
Definition String_ (h : WeightedHistogram F) : String.string :=
  fold_left
    (fun str b =>
       String.append str (Sprintln3 (show (Value b)) tab (bar h b)))
    (Bins h)
    (String.append String.EmptyString (Sprintln2 Total_label (show (Total h)))).

End Rendering.

(** The conversion [int(x)] on an exact value: truncation toward zero. *)
Definition Qtruncate (x : Q) : Z := Z.quot (Qnum x) (Z.pos (Qden x)).

(** ** Vocabulary of the statements *)

(** A bin after one round of decay by [alpha]. *)
Definition decayed {F} `{Float64 F} (alpha : F) (b : Bin F) : Bin F :=
  {| Value := Value b; Count := ewma (Count b) f0 alpha |}.

(** A bin the scan of [Add] walks past: neither equal to the sample nor
    above it. *)
Definition passed {F} `{Float64 F} (n : F) (b : Bin F) : Prop :=
  feqb (Value b) n = false /\ fgtb (Value b) n = false.

(** *** Order of the bin values *)

(** A number: a value that equals itself.  On binary64 that is every float
    but NaN. *)
Definition number {F} `{Float64 F} (x : F) : Prop := feqb x x = true.

(** Strictly ascending values, none of them NaN: every bin's value is below
    ([<]) that of every later bin, so no two bins share a value. *)
Definition strictly_ascending {F} `{Float64 F} (bins : list (Bin F)) : Prop :=
  StronglySorted (fun x y => fltb x y = true) (map Value bins) /\
  Forall number (map Value bins).

(** *** Compaction, in the words of the specification *)

(** The difference in value of two bins, as [trim] computes it. *)
Definition gap {F} `{Float64 F} (a b : Bin F) : F := fsub (Value b) (Value a).

(** [c] and [d] are the bins at the indices [i] and [i + 1]. *)
Definition adjacent {F} (bins : list (Bin F)) (i : nat) (c d : Bin F) : Prop :=
  nth_error bins i = Some c /\ nth_error bins (S i) = Some d.

(** In [l1 ++ a :: b :: l2] the adjacent pair [(a, b)] is the first one
    with the smallest difference: its difference is below [1e99], no pair has
    a smaller one, and no pair that starts inside [l1] has one that is
    smaller or equal. *)
Definition closest_pair {F} `{Float64 F}
    (l1 : list (Bin F)) (a b : Bin F) (l2 : list (Bin F)) : Prop :=
  fltb (gap a b) f1e99 = true /\
  forall i c d,
    adjacent (l1 ++ a :: b :: l2) i c d ->
    fltb (gap c d) (gap a b) = false /\
    ((i < length l1)%nat -> fleb (gap c d) (gap a b) = false).

(** No adjacent pair has a difference below [1e99] (as with fewer than two
    bins, values [1e99] or more apart, or differences that are NaN). *)
Definition no_close_pair {F} `{Float64 F} (bins : list (Bin F)) : Prop :=
  forall i c d, adjacent bins i c d -> fltb (gap c d) f1e99 = false.

(** Compaction down to [maxbins] bins, one closest pair at a time.  It ends
    with [Some] bin list that fits the budget, or with [None] where more than
    [maxbins] bins are left and no pair is close enough to be merged. *)
Inductive compaction {F} `{Float64 F} (maxbins : Z)
    : list (Bin F) -> option (list (Bin F)) -> Prop :=
| compaction_done (bins : list (Bin F)) :
    (Z.of_nat (length bins) <= maxbins)%Z ->
    compaction maxbins bins (Some bins)
| compaction_stuck (bins : list (Bin F)) :
    (Z.of_nat (length bins) > maxbins)%Z ->
    no_close_pair bins ->
    compaction maxbins bins None
| compaction_merge (l1 : list (Bin F)) (a b : Bin F) (l2 : list (Bin F))
    (r : option (list (Bin F))) :
    (Z.of_nat (length (l1 ++ a :: b :: l2)) > maxbins)%Z ->
    closest_pair l1 a b l2 ->
    compaction maxbins (l1 ++ mergedbin a b :: l2) r ->
    compaction maxbins (l1 ++ a :: b :: l2) r.

(** *** Sums of weights *)

(** The second list holds the numbers of the first, some adjacent ones
    replaced by their sum: the same numbers, added in another grouping. *)
Inductive regrouped {F} `{Float64 F} : list F -> list F -> Prop :=
| regrouped_same (ws : list F) : regrouped ws ws
| regrouped_pair (l1 : list F) (wa wb : F) (l2 ws' : list F) :
    regrouped (l1 ++ fadd wa wb :: l2) ws' ->
    regrouped (l1 ++ wa :: wb :: l2) ws'.

(** The cumulative weight of the first [k] bins, summed left to right. *)
Definition prefix_sum {F} `{Float64 F} (bins : list (Bin F)) (k : nat) : F :=
  sumCount (firstn k bins).

(** *** [Quantile] *)

(** What [Quantile] holds in [count] after it has subtracted the weights of
    the first [k] bins. *)
Definition count_after {F} `{Float64 F} (count : F) (bins : list (Bin F)) (k : nat) : F :=
  fold_left (fun c b => fsub c (Count b)) (firstn k bins) count.

(** The bin at index [i] is the first after which the remainder is [<= 0]. *)
Definition selects {F} `{Float64 F} (count : F) (bins : list (Bin F)) (i : nat) : Prop :=
  fleb (count_after count bins (S i)) f0 = true /\
  forall j, (j < i)%nat -> fleb (count_after count bins (S j)) f0 = false.

(** The remainder is [<= 0] after no bin. *)
Definition selects_none {F} `{Float64 F} (count : F) (bins : list (Bin F)) : Prop :=
  forall j, (j < length bins)%nat -> fleb (count_after count bins (S j)) f0 = false.

(** [Quantile] in the words of the specification: the value of the first
    bin at which the cumulative weight reaches [q * Total], and [-1] when
    none does. *)
Fixpoint prefix_scan {F} `{Float64 F} (target sum : F) (bins : list (Bin F)) : F :=
  match bins with
  | [] => fneg1
  | b :: rest =>
      let sum := fadd sum (Count b) in
      if fleb target sum then Value b else prefix_scan target sum rest
  end.

Definition Quantile_by_prefix_sums {F} `{Float64 F}
    (h : WeightedHistogram F) (q : F) : F :=
  prefix_scan (fmul q (Total h)) f0 (Bins h).

(** *** Signs, on the specification of binary64 *)

(** A zero of either sign, a negative number or minus infinity. *)
Definition sf_nonpos (x : spec_float) : Prop :=
  match x with
  | S754_zero _ => True
  | S754_finite s _ _ => s = true
  | S754_infinity s => s = true
  | S754_nan => False
  end.

(** *** Over the rationals *)

(** Strictly ascending values: every bin's value is below that of every
    later bin, so no two bins share a value. *)
Definition ascending (bins : list (Bin Q)) : Prop :=
  StronglySorted Qlt (map Value bins).

(** The sum of the weights, right to left. *)
Definition weight_sum (bins : list (Bin Q)) : Q :=
  fold_right (fun b s => Count b + s) 0 bins.

(** * Theorems *)

(** ** Facts that hold for every instance of the arithmetic *)

Section Generic.

Context {F : Type} `{Float64 F}.

Lemma Mean_guard (h : WeightedHistogram F) :
  feqb (Total h) f0 = true -> Mean h = f0.
Proof. intros E. unfold Mean. now rewrite E. Qed.

Lemma Variance_guard (h : WeightedHistogram F) :
  feqb (Total h) f0 = true -> Variance h = f0.
Proof. intros E. unfold Variance. now rewrite E. Qed.

Lemma CDF_no_bins (h : WeightedHistogram F) (x : F) :
  Bins h = [] -> CDF h x = fdiv f0 (Total h).
Proof. intros E. unfold CDF. now rewrite E. Qed.

(** *** The scan of [Add] *)

Lemma add_scan_touched (n : F) (bins bins' : list (Bin F)) (i : nat) :
  add_scan n bins = (bins', Some i) ->
  exists pre b post,
    bins = pre ++ b :: post /\ length pre = i /\ Forall (passed n) pre /\
    ((feqb (Value b) n = true /\
      bins' = pre ++ {| Value := Value b; Count := fadd (Count b) f1 |} :: post)
     \/
     (feqb (Value b) n = false /\ fgtb (Value b) n = true /\
      bins' = pre ++ {| Value := n; Count := f1 |} :: b :: post)).
Proof.
  revert bins' i. induction bins as [|b rest IH]; intros bins' i E; simpl in E.
  - discriminate.
  - destruct (feqb (Value b) n) eqn:Eeq.
    + inversion E; subst. exists [], b, rest. repeat split; auto.
    + destruct (fgtb (Value b) n) eqn:Egt.
      * inversion E; subst. exists [], b, rest. repeat split; auto.
      * destruct (add_scan n rest) as [rest' touched] eqn:Er.
        destruct touched as [k|]; simpl in E; [|discriminate].
        inversion E; subst.
        destruct (IH rest' k eq_refl) as (pre & c & post & -> & <- & P & D).
        exists (b :: pre), c, post. repeat split; auto.
        -- constructor; [split|]; assumption.
        -- destruct D as [[M ->] | (M1 & M2 & ->)]; [left | right]; auto.
Qed.

Lemma add_scan_appended (n : F) (bins bins' : list (Bin F)) :
  add_scan n bins = (bins', None) ->
  bins' = bins ++ [{| Value := n; Count := f1 |}] /\ Forall (passed n) bins.
Proof.
  revert bins'. induction bins as [|b rest IH]; intros bins' E; simpl in E.
  - inversion E. split; auto.
  - destruct (feqb (Value b) n) eqn:Eeq; [discriminate|].
    destruct (fgtb (Value b) n) eqn:Egt; [discriminate|].
    destruct (add_scan n rest) as [rest' touched] eqn:Er.
    destruct touched as [k|]; simpl in E; [discriminate|].
    inversion E; subst.
    destruct (IH rest' eq_refl) as [-> P]. split; auto.
    constructor; [split|]; assumption.
Qed.

(** *** [scaleDown] spares exactly the bin at [except] *)

Lemma scaleDown_from_before (alpha : F) (except i : nat) (bins : list (Bin F)) :
  (except < i)%nat -> scaleDown_from alpha except i bins = map (decayed alpha) bins.
Proof.
  revert i. induction bins as [|b rest IH]; intros i L; simpl; auto.
  destruct (Nat.eqb_spec i except); [lia|].
  f_equal. apply IH. lia.
Qed.

Lemma scaleDown_from_split (alpha : F) (i : nat) (pre : list (Bin F)) (b : Bin F)
    (post : list (Bin F)) :
  scaleDown_from alpha (i + length pre) i (pre ++ b :: post)
  = map (decayed alpha) pre ++ b :: map (decayed alpha) post.
Proof.
  revert i. induction pre as [|a pre IH]; intros i; simpl.
  - rewrite Nat.add_0_r, Nat.eqb_refl. f_equal.
    apply scaleDown_from_before. lia.
  - destruct (Nat.eqb_spec i (i + S (length pre))); [lia|].
    f_equal. rewrite <- Nat.add_succ_comm. apply IH.
Qed.

Lemma scaleDown_split (alpha : F) (pre : list (Bin F)) (b : Bin F) (post : list (Bin F)) :
  scaleDown alpha (length pre) (pre ++ b :: post)
  = map (decayed alpha) pre ++ b :: map (decayed alpha) post.
Proof. exact (scaleDown_from_split alpha 0 pre b post). Qed.

(** *** What [add_decay] leaves in the bin list *)

Lemma add_decay_cases (h : WeightedHistogram F) (n : F) :
  (Bins (add_decay h n) = Bins h ++ [{| Value := n; Count := f1 |}] /\
   Forall (passed n) (Bins h))
  \/
  (exists pre b post,
     Bins h = pre ++ b :: post /\ Forall (passed n) pre /\
     ((feqb (Value b) n = true /\
       Bins (add_decay h n)
       = map (decayed (Alpha h)) pre
         ++ {| Value := Value b; Count := fadd (Count b) f1 |}
         :: map (decayed (Alpha h)) post)
      \/
      (feqb (Value b) n = false /\ fgtb (Value b) n = true /\
       Bins (add_decay h n)
       = map (decayed (Alpha h)) pre
         ++ {| Value := n; Count := f1 |}
         :: map (decayed (Alpha h)) (b :: post)))).
Proof.
  unfold add_decay. destruct (add_scan n (Bins h)) as [bins touched] eqn:E.
  destruct touched as [i|]; simpl.
  - right. destruct (add_scan_touched _ _ _ _ E) as (pre & b & post & Hb & Hi & P & D).
    exists pre, b, post. split; [assumption|]. split; [assumption|].
    subst i. destruct D as [[M ->] | (M1 & M2 & ->)]; [left | right];
      repeat split; auto; apply scaleDown_split.
  - left. apply add_scan_appended. assumption.
Qed.

Lemma add_decay_fields (h : WeightedHistogram F) (n : F) :
  Maxbins (add_decay h n) = Maxbins h /\ Alpha (add_decay h n) = Alpha h.
Proof.
  unfold add_decay. destruct (add_scan n (Bins h)) as [bins touched].
  split; reflexivity.
Qed.

(** *** One merge *)

Lemma nth_error_split_pair (bins : list (Bin F)) (j : nat) (a b : Bin F) :
  nth_error bins j = Some a -> nth_error bins (S j) = Some b ->
  exists l1 l2, bins = l1 ++ a :: b :: l2 /\ length l1 = j /\
                firstn j bins = l1 /\ skipn (S (S j)) bins = l2.
Proof.
  revert j. induction bins as [|c rest IH]; intros j Ha Hb.
  - destruct j; discriminate.
  - destruct j as [|j].
    + simpl in Ha. inversion Ha; subst c.
      destruct rest as [|d rest]; [discriminate|].
      simpl in Hb. inversion Hb; subst d.
      exists [], rest. repeat split; reflexivity.
    + simpl in Ha. change (nth_error rest (S j) = Some b) in Hb.
      destruct (IH j Ha Hb) as (l1 & l2 & -> & <- & E1 & E2).
      exists (c :: l1), l2. repeat split.
      * simpl. now rewrite E1.
      * exact E2.
Qed.

Lemma merge_at_Ok (bins bins' : list (Bin F)) (k : nat) :
  merge_at bins k = Ok bins' ->
  exists l1 a b l2,
    k = S (length l1) /\ bins = l1 ++ a :: b :: l2 /\
    bins' = l1 ++ mergedbin a b :: l2.
Proof.
  unfold merge_at. destruct k as [|j]; [discriminate|].
  destruct (nth_error bins j) as [a|] eqn:Ea; [|discriminate].
  destruct (nth_error bins (S j)) as [b|] eqn:Eb; [|discriminate].
  intros E. apply (f_equal (fun o => match o with Ok x => x | _ => [] end)) in E.
  subst bins'.
  destruct (nth_error_split_pair _ _ _ _ Ea Eb) as (l1 & l2 & -> & <- & E1 & E2).
  exists l1, a, b, l2. rewrite E1, E2. repeat split; reflexivity.
Qed.

Lemma merge_at_never_out_of_fuel (bins : list (Bin F)) (k : nat) :
  merge_at bins k <> OutOfFuel.
Proof.
  unfold merge_at. destruct k; [discriminate|].
  destruct (nth_error bins k); [|discriminate].
  destruct (nth_error bins (S k)); discriminate.
Qed.

Lemma merge_at_pair (l1 : list (Bin F)) (a b : Bin F) (l2 : list (Bin F)) :
  merge_at (l1 ++ a :: b :: l2) (S (length l1)) = Ok (l1 ++ mergedbin a b :: l2).
Proof.
  assert (Ea : nth_error (l1 ++ a :: b :: l2) (length l1) = Some a).
  { rewrite nth_error_app2 by lia. now rewrite Nat.sub_diag. }
  assert (Eb : nth_error (l1 ++ a :: b :: l2) (S (length l1)) = Some b).
  { rewrite nth_error_app2 by lia.
    now replace (S (length l1) - length l1)%nat with 1%nat by lia. }
  unfold merge_at. rewrite Ea, Eb.
  f_equal. f_equal.
  - rewrite firstn_app, Nat.sub_diag, firstn_all. simpl. apply app_nil_r.
  - f_equal. rewrite skipn_app, skipn_all2 by lia.
    now replace (S (S (length l1)) - length l1)%nat with 2%nat by lia.
Qed.

(** *** The loop of [trim] *)

Lemma trim_loop_within_budget (fuel : nat) (maxbins : Z) (bins bins' : list (Bin F)) :
  trim_loop fuel maxbins bins = Ok bins' -> (Z.of_nat (length bins') <= maxbins)%Z.
Proof.
  revert bins. induction fuel as [|fuel IH]; intros bins; simpl;
    destruct (Z.gtb_spec (Z.of_nat (length bins)) maxbins) as [G|G].
  - discriminate.
  - intros E. inversion E; subst. exact G.
  - destruct (merge_at bins (closest bins)) as [b1| |]; try discriminate.
    apply IH.
  - intros E. inversion E; subst. exact G.
Qed.

Lemma trim_loop_fits (fuel : nat) (maxbins : Z) (bins : list (Bin F)) :
  (Z.of_nat (length bins) <= maxbins)%Z -> trim_loop fuel maxbins bins = Ok bins.
Proof.
  intros L. destruct fuel; simpl;
    destruct (Z.gtb_spec (Z.of_nat (length bins)) maxbins); auto; lia.
Qed.

Lemma trim_Ok (h h' : WeightedHistogram F) :
  trim h = Ok h' ->
  trim_loop (S (length (Bins h))) (Maxbins h) (Bins h) = Ok (Bins h') /\
  Maxbins h' = Maxbins h /\ Total h' = sumCount (Bins h) /\ Alpha h' = Alpha h.
Proof.
  unfold trim.
  destruct (trim_loop (S (length (Bins h))) (Maxbins h) (Bins h)); try discriminate.
  intros E. inversion E; subst. simpl. repeat split; reflexivity.
Qed.

(** *** The bins after the scan and the decay, and the budget *)

Lemma add_decay_length (h : WeightedHistogram F) (n : F) :
  (length (Bins h) <= length (Bins (add_decay h n)) <= S (length (Bins h)))%nat.
Proof.
  destruct (add_decay_cases h n) as [[-> _] | (pre & b & post & E & _ & D)].
  - rewrite length_app. simpl. lia.
  - rewrite E. destruct D as [[_ ->] | (_ & _ & ->)];
      rewrite !length_app; simpl; rewrite !length_map; lia.
Qed.

Lemma Add_when_fits (h : WeightedHistogram F) (n : F) :
  (Z.of_nat (length (Bins (add_decay h n))) <= Maxbins h)%Z ->
  Add h n = Ok {| Bins := Bins (add_decay h n); Maxbins := Maxbins h;
                  Total := sumCount (Bins (add_decay h n)); Alpha := Alpha h |}.
Proof.
  intros L. unfold Add, trim.
  destruct (add_decay_fields h n) as [Mx Al]. rewrite Mx, Al.
  rewrite trim_loop_fits by exact L. reflexivity.
Qed.

Lemma trim_loop_one_over (fuel : nat) (maxbins : Z) (bins bins' : list (Bin F)) :
  (Z.of_nat (length bins) <= maxbins + 1)%Z ->
  trim_loop fuel maxbins bins = Ok bins' ->
  bins' = bins \/
  exists l1 a b l2, bins = l1 ++ a :: b :: l2 /\ bins' = l1 ++ mergedbin a b :: l2.
Proof.
  intros L. destruct fuel as [|fuel]; simpl;
    destruct (Z.gtb_spec (Z.of_nat (length bins)) maxbins) as [G|G].
  - discriminate.
  - intros E. injection E as <-. now left.
  - destruct (merge_at bins (closest bins)) as [b1| |] eqn:M; try discriminate.
    destruct (merge_at_Ok _ _ _ M) as (l1 & a & b & l2 & _ & -> & ->).
    rewrite trim_loop_fits.
    + intros E. injection E as <-. right. now exists l1, a, b, l2.
    + rewrite length_app in *. simpl in *. lia.
  - intros E. injection E as <-. now left.
Qed.

Lemma AddAll_Maxbins (samples : list F) (h h' : WeightedHistogram F) :
  AddAll h samples = Ok h' -> Maxbins h' = Maxbins h.
Proof.
  revert h. induction samples as [|x rest IH]; intros h E; simpl in E.
  - injection E as <-. reflexivity.
  - destruct (Add h x) as [h1| |] eqn:A; try discriminate.
    rewrite (IH _ E). unfold Add in A. apply trim_Ok in A.
    destruct A as (_ & Mx & _). rewrite Mx. apply add_decay_fields.
Qed.

Lemma AddAll_within_budget (samples : list F) (h h' : WeightedHistogram F) :
  (Z.of_nat (length (Bins h)) <= Maxbins h)%Z ->
  AddAll h samples = Ok h' ->
  (Z.of_nat (length (Bins h')) <= Maxbins h')%Z.
Proof.
  revert h. induction samples as [|n rest IH]; intros h L E; simpl in E.
  - injection E as <-. exact L.
  - destruct (Add h n) as [h1| |] eqn:A; try discriminate.
    apply (IH h1); [|exact E].
    unfold Add in A. apply trim_Ok in A. destruct A as (T & M & _).
    rewrite M. exact (trim_loop_within_budget _ _ _ _ T).
Qed.

(** *** Construction *)

Lemma Add_first (n : Z) (alpha x : F) :
  ((n <= 0)%Z -> Add (NewWeightedHistogram n alpha) x = Panic) /\
  ((1 <= n)%Z ->
   Add (NewWeightedHistogram n alpha) x
   = Ok {| Bins := [{| Value := x; Count := f1 |}]; Maxbins := n;
           Total := fadd f0 f1; Alpha := alpha |}).
Proof.
  unfold Add, trim, add_decay; simpl.
  split; intros L.
  - destruct (Z.gtb_spec 1 n); [|lia]. reflexivity.
  - destruct (Z.gtb_spec 1 n); [lia|]. reflexivity.
Qed.

(** C8, as the code has it.  Construction checks nothing: for every [n] and
    [alpha], in or out of range, [NewWeightedHistogram] returns the empty
    histogram that stores both as given.  A budget [n <= 0] shows only at
    the first [Add], which panics in [trim]; with [n >= 1] the first [Add]
    returns, whatever [alpha] is. *)
Theorem construction_is_unchecked (n : Z) (alpha : F) :
  NewWeightedHistogram n alpha
  = {| Bins := []; Maxbins := n; Total := f0; Alpha := alpha |} /\
  forall x,
    ((n <= 0)%Z -> Add (NewWeightedHistogram n alpha) x = Panic) /\
    ((1 <= n)%Z ->
     Add (NewWeightedHistogram n alpha) x
     = Ok {| Bins := [{| Value := x; Count := f1 |}]; Maxbins := n;
             Total := fadd f0 f1; Alpha := alpha |}).
Proof.
  split; [reflexivity|]. intros x. apply Add_first.
Qed.

(** *** The cached total *)

Lemma trim_loop_regrouped (fuel : nat) (maxbins : Z) (bins bins' : list (Bin F)) :
  trim_loop fuel maxbins bins = Ok bins' ->
  regrouped (map Count bins) (map Count bins').
Proof.
  revert bins. induction fuel as [|fuel IH]; intros bins; simpl;
    destruct (Z.of_nat (length bins) >? maxbins)%Z.
  - discriminate.
  - intros E. inversion E; subst. constructor.
  - destruct (merge_at bins (closest bins)) as [b1| |] eqn:M; try discriminate.
    destruct (merge_at_Ok _ _ _ M) as (l1 & a & b & l2 & _ & -> & ->).
    intros E. apply IH in E. rewrite map_app in *. simpl in *.
    apply regrouped_pair. exact E.
  - intros E. inversion E; subst. constructor.
Qed.

(** C4, as the code has it.  On any arithmetic.  When [Add] returns, [Total]
    is the sum, left to right from 0, of the weights the bins had after the
    insertion and the decay, before any merge.  The weights of the bins it
    leaves are those same weights, each merged pair replaced by the sum of
    the two.  When no merge was needed they are the same list, and [Total]
    is the left-to-right sum of the weights of the bins now in the list. *)
Theorem Add_total_is_sum_before_merging (h h' : WeightedHistogram F) (n : F) :
  Add h n = Ok h' ->
  Total h' = sumCount (Bins (add_decay h n)) /\
  regrouped (map Count (Bins (add_decay h n))) (map Count (Bins h')) /\
  ((Z.of_nat (length (Bins (add_decay h n))) <= Maxbins h)%Z ->
   Bins h' = Bins (add_decay h n) /\ Total h' = sumCount (Bins h')).
Proof.
  unfold Add. intros E. apply trim_Ok in E.
  destruct (add_decay_fields h n) as [Mx _]. rewrite Mx in E.
  destruct E as (L & _ & T & _).
  split; [exact T|]. split; [exact (trim_loop_regrouped _ _ _ _ L)|].
  intros Fit. rewrite trim_loop_fits in L by exact Fit.
  injection L as B. split; [symmetry; exact B|].
  rewrite T, B. reflexivity.
Qed.

(** *** The scan of [Quantile] *)

Lemma count_after_cons (count : F) (b : Bin F) (rest : list (Bin F)) (k : nat) :
  count_after count (b :: rest) (S k) = count_after (fsub count (Count b)) rest k.
Proof. reflexivity. Qed.

Lemma quantile_scan_cases (bins : list (Bin F)) (count : F) :
  (exists i b, nth_error bins i = Some b /\ selects count bins i /\
               quantile_scan count bins = Value b)
  \/ (selects_none count bins /\ quantile_scan count bins = fneg1).
Proof.
  revert count. induction bins as [|b rest IH]; intros count.
  - right. split; [|reflexivity]. intros j L. simpl in L. lia.
  - simpl quantile_scan.
    destruct (fleb (fsub count (Count b)) f0) eqn:E.
    + left. exists 0%nat, b. split; [reflexivity|]. split; [|reflexivity].
      split; [exact E|]. intros j L. lia.
    + destruct (IH (fsub count (Count b))) as [(i & c & N & [S1 S2] & Q) | [S Q]].
      * left. exists (S i), c. split; [exact N|]. split; [|exact Q].
        split; [rewrite count_after_cons; exact S1|].
        intros [|j] L; rewrite count_after_cons; [exact E | apply S2; lia].
      * right. split; [|exact Q].
        intros [|j] L; rewrite count_after_cons; [exact E|].
        apply S. simpl in L. lia.
Qed.

Lemma quantile_scan_last (count : F) (pre : list (Bin F)) (lastb : Bin F) :
  (forall j, (j < length pre)%nat ->
             fleb (count_after count (pre ++ [lastb]) (S j)) f0 = false) ->
  quantile_scan count (pre ++ [lastb])
  = if fleb (count_after count (pre ++ [lastb]) (S (length pre))) f0
    then Value lastb else fneg1.
Proof.
  revert count. induction pre as [|b rest IH]; intros count E.
  - reflexivity.
  - simpl app. simpl quantile_scan. simpl length.
    rewrite count_after_cons.
    assert (L0 : (0 < length (b :: rest))%nat) by (simpl; lia).
    pose proof (E 0%nat L0) as E0.
    simpl app in E0. rewrite count_after_cons in E0.
    change (count_after (fsub count (Count b)) (rest ++ [lastb]) 0)
      with (fsub count (Count b)) in E0.
    rewrite E0.
    apply IH. intros j L.
    assert (L' : (S j < length (b :: rest))%nat) by (simpl; lia).
    specialize (E (S j) L').
    simpl app in E. rewrite count_after_cons in E. exact E.
Qed.


(** *** [CDF] at a value that no bin exceeds *)

Lemma CDF_fold_all (x : F) (bins : list (Bin F)) (acc : F) :
  Forall (fun b => fleb (Value b) x = true) bins ->
  fold_left (fun count b => if fleb (Value b) x then fadd count (Count b) else count)
            bins acc
  = fold_left (fun total b => fadd total (Count b)) bins acc.
Proof.
  intros A. revert acc. induction A as [|b rest L _ IH]; intros acc; simpl.
  - reflexivity.
  - rewrite L. apply IH.
Qed.

Lemma CDF_at_upper_bound (h : WeightedHistogram F) (x : F) :
  Forall (fun b => fleb (Value b) x = true) (Bins h) ->
  CDF h x = fdiv (sumCount (Bins h)) (Total h).
Proof. intros A. unfold CDF, sumCount. now rewrite CDF_fold_all. Qed.

(** *** Compaction that returns *)

Lemma compaction_fits (maxbins : Z) (bins bins' : list (Bin F)) :
  compaction maxbins bins (Some bins') -> (Z.of_nat (length bins') <= maxbins)%Z.
Proof.
  intros C. remember (Some bins') as r eqn:E.
  induction C; try discriminate; auto.
  injection E as ->. assumption.
Qed.

End Generic.

(** ** Facts that hold for every ordered instance of the arithmetic *)

(** What the search for the closest pair and the scan of [Add] need of [<],
    [<=] and [==]; binary64 has these properties, NaN included. *)

Section Ordered.

Context {F : Type} `{Float64 F}.

Hypothesis lt_trans :
  forall a b c : F, fltb a b = true -> fltb b c = true -> fltb a c = true.
Hypothesis le_lt_trans :
  forall a b c : F, fleb a b = true -> fltb b c = true -> fltb a c = true.
Hypothesis lt_le : forall a b : F, fltb a b = true -> fleb a b = true.
Hypothesis lt_not_le : forall a b : F, fltb a b = true -> fleb b a = false.

Lemma not_le_not_lt (a b : F) : fleb a b = false -> fltb a b = false.
Proof.
  intros E. destruct (fltb a b) eqn:L; [|reflexivity].
  apply lt_le in L. congruence.
Qed.

Lemma lt_irrefl (a : F) : fltb a a = false.
Proof.
  destruct (fltb a a) eqn:L; [|reflexivity].
  pose proof (lt_le _ _ L). pose proof (lt_not_le _ _ L). congruence.
Qed.

(** *** The search for the closest pair *)

Lemma adjacent_cons (p : Bin F) (rest : list (Bin F)) (t : nat) (c d : Bin F) :
  adjacent (p :: rest) (S t) c d <-> adjacent rest t c d.
Proof. unfold adjacent. simpl. tauto. Qed.

Lemma adjacent_head (p b : Bin F) (tl : list (Bin F)) (c d : Bin F) :
  adjacent (p :: b :: tl) 0 c d -> c = p /\ d = b.
Proof. unfold adjacent. simpl. intros [E1 E2]. split; congruence. Qed.

Lemma closest_from_spec (rest : list (Bin F)) (p : Bin F) (i : nat) (md : F) (mi : nat) :
  (closest_from (Value p) rest i md mi = mi /\
   forall t c d, adjacent (p :: rest) t c d -> fltb (gap c d) md = false)
  \/
  (exists t a b,
     closest_from (Value p) rest i md mi = (i + t)%nat /\
     adjacent (p :: rest) t a b /\ fltb (gap a b) md = true /\
     forall t' c d,
       adjacent (p :: rest) t' c d ->
       fltb (gap c d) (gap a b) = false /\
       ((t' < t)%nat -> fleb (gap c d) (gap a b) = false)).
Proof.
  revert p i md mi. induction rest as [|b tl IH]; intros p i md mi.
  - left. split; [reflexivity|]. intros t c d [_ A].
    destruct t; discriminate A.
  - simpl closest_from. change (fsub (Value b) (Value p)) with (gap p b).
    destruct (fltb (gap p b) md) eqn:L.
    + right.
      destruct (IH b (S i) (gap p b) i)
        as [[-> A] | (t & a' & b' & -> & Adj & Lt & Min)].
      * exists 0%nat, p, b. rewrite Nat.add_0_r.
        split; [reflexivity|]. split; [split; reflexivity|]. split; [exact L|].
        intros [|t'] c d Adj.
        -- apply adjacent_head in Adj. destruct Adj as [-> ->].
           split; [apply lt_irrefl | lia].
        -- apply adjacent_cons in Adj. split; [exact (A _ _ _ Adj) | lia].
      * exists (S t), a', b'. rewrite Nat.add_succ_comm.
        split; [reflexivity|]. split; [apply adjacent_cons; exact Adj|].
        split; [exact (lt_trans _ _ _ Lt L)|].
        intros [|t'] c d Adj'.
        -- apply adjacent_head in Adj'. destruct Adj' as [-> ->].
           pose proof (lt_not_le _ _ Lt) as N.
           split; [apply not_le_not_lt; exact N | intros _; exact N].
        -- apply adjacent_cons in Adj'. destruct (Min _ _ _ Adj') as [M1 M2].
           split; [exact M1 | intros Hlt; apply M2; lia].
    + destruct (IH b (S i) md mi)
        as [[-> A] | (t & a' & b' & -> & Adj & Lt & Min)].
      * left. split; [reflexivity|].
        intros [|t'] c d Adj.
        -- apply adjacent_head in Adj. destruct Adj as [-> ->]. exact L.
        -- apply adjacent_cons in Adj. exact (A _ _ _ Adj).
      * right. exists (S t), a', b'. rewrite Nat.add_succ_comm.
        split; [reflexivity|]. split; [apply adjacent_cons; exact Adj|].
        split; [exact Lt|].
        intros [|t'] c d Adj'.
        -- apply adjacent_head in Adj'. destruct Adj' as [-> ->].
           assert (N : fleb (gap p b) (gap a' b') = false).
           { destruct (fleb (gap p b) (gap a' b')) eqn:Le; [|reflexivity].
             pose proof (le_lt_trans _ _ _ Le Lt). congruence. }
           split; [apply not_le_not_lt; exact N | intros _; exact N].
        -- apply adjacent_cons in Adj'. destruct (Min _ _ _ Adj') as [M1 M2].
           split; [exact M1 | intros Hlt; apply M2; lia].
Qed.

Lemma closest_spec (bins : list (Bin F)) :
  (closest bins = 0%nat /\ no_close_pair bins)
  \/
  (exists l1 a b l2,
     bins = l1 ++ a :: b :: l2 /\ closest bins = S (length l1) /\
     closest_pair l1 a b l2).
Proof.
  destruct bins as [|p rest].
  - left. split; [reflexivity|]. intros i c d [A _]. destruct i; discriminate A.
  - unfold closest.
    destruct (closest_from_spec rest p 1 f1e99 0)
      as [[-> A] | (t & a & b & -> & [Ha Hb] & Lt & Min)].
    + left. split; [reflexivity | exact A].
    + right.
      destruct (nth_error_split_pair _ _ _ _ Ha Hb) as (l1 & l2 & E & Len & _).
      exists l1, a, b, l2. rewrite <- E. subst t.
      split; [reflexivity|]. split; [reflexivity|]. split; [exact Lt|].
      intros i c d Adj. rewrite <- E in Adj. exact (Min i c d Adj).
Qed.

(** *** The loop of [trim] is a compaction *)

Lemma trim_loop_compaction (fuel : nat) (maxbins : Z) (bins : list (Bin F)) :
  (length bins < fuel)%nat ->
  exists r,
    compaction maxbins bins r /\
    trim_loop fuel maxbins bins
    = match r with Some bins' => Ok bins' | None => Panic end.
Proof.
  revert bins. induction fuel as [|fuel IH]; intros bins Lf; [lia|].
  simpl. destruct (Z.gtb_spec (Z.of_nat (length bins)) maxbins) as [G|G].
  - destruct (closest_spec bins) as [[-> N] | (l1 & a & b & l2 & -> & -> & C)].
    + exists None. split; [|reflexivity]. apply compaction_stuck; [lia | exact N].
    + rewrite merge_at_pair.
      destruct (IH (l1 ++ mergedbin a b :: l2)) as (r & Cr & Er).
      { rewrite length_app in *. simpl in *. lia. }
      exists r. split; [|exact Er].
      apply compaction_merge; [lia | exact C | exact Cr].
  - exists (Some bins). split; [|reflexivity]. apply compaction_done. exact G.
Qed.

Lemma trim_compaction (h : WeightedHistogram F) :
  exists r,
    compaction (Maxbins h) (Bins h) r /\
    trim h = match r with
             | Some bins' => Ok {| Bins := bins'; Maxbins := Maxbins h;
                                   Total := sumCount (Bins h); Alpha := Alpha h |}
             | None => Panic
             end.
Proof.
  destruct (trim_loop_compaction (S (length (Bins h))) (Maxbins h) (Bins h))
    as (r & C & E); [lia|].
  exists r. split; [exact C|]. unfold trim. rewrite E. destruct r; reflexivity.
Qed.

(** *** Insertion and decay keep the order *)

Hypothesis trichotomy :
  forall a b : F, number a -> number b ->
                  feqb a b = false -> fltb b a = false -> fltb a b = true.

Lemma strictly_sorted_app (l1 l2 : list F) :
  StronglySorted (fun x y => fltb x y = true) (l1 ++ l2) <->
  StronglySorted (fun x y => fltb x y = true) l1 /\
  StronglySorted (fun x y => fltb x y = true) l2 /\
  (forall x y, In x l1 -> In y l2 -> fltb x y = true).
Proof.
  induction l1 as [|a l1 IH]; simpl.
  - split.
    + intros S. repeat split; [constructor | exact S | intros x y []].
    + intros (_ & S & _). exact S.
  - split.
    + intros S. inversion S as [|? ? S' A]; subst.
      apply IH in S'. destruct S' as (S1 & S2 & C).
      rewrite Forall_app in A. destruct A as [A1 A2].
      repeat split.
      * constructor; assumption.
      * exact S2.
      * intros x y [<- | I] J; [|now apply C].
        rewrite Forall_forall in A2. now apply A2.
    + intros (S1 & S2 & C). inversion S1 as [|? ? S1' A1]; subst.
      constructor.
      * apply IH. repeat split; auto.
      * apply Forall_app. split; [exact A1|].
        apply Forall_forall. intros y J. apply C; auto.
Qed.

Lemma Value_of_decayed (alpha : F) (bins : list (Bin F)) :
  map Value (map (decayed alpha) bins) = map Value bins.
Proof. rewrite map_map. reflexivity. Qed.

Lemma passed_values_below (n : F) (bins : list (Bin F)) :
  number n -> Forall number (map Value bins) -> Forall (passed n) bins ->
  forall x, In x (map Value bins) -> fltb x n = true.
Proof.
  intros Nn Nb P x I. apply in_map_iff in I. destruct I as (b & <- & I).
  rewrite Forall_forall in Nb, P.
  destruct (P b I) as [E G]. unfold fgtb in G.
  apply trichotomy; auto. apply Nb. now apply in_map.
Qed.

Lemma add_decay_ascending (h : WeightedHistogram F) (n : F) :
  strictly_ascending (Bins h) -> number n -> strictly_ascending (Bins (add_decay h n)).
Proof.
  unfold strictly_ascending. intros [S N] Nn.
  destruct (add_decay_cases h n) as [[-> P] | (pre & b & post & E & P & D)].
  - rewrite map_app. simpl. split.
    + apply strictly_sorted_app. split; [exact S|]. split; [repeat constructor|].
      intros x y I [<- | []]. exact (passed_values_below n (Bins h) Nn N P x I).
    + apply Forall_app. split; [exact N | repeat constructor; exact Nn].
  - rewrite E in S, N. rewrite map_app in S, N. simpl in S, N.
    destruct D as [[M ->] | (M & G & ->)].
    + rewrite map_app. simpl. rewrite !Value_of_decayed. split; assumption.
    + rewrite map_app. simpl. rewrite !Value_of_decayed.
      apply strictly_sorted_app in S. destruct S as (S1 & S2 & C).
      apply Forall_app in N. destruct N as [N1 N2].
      inversion S2 as [|? ? S2' A2]; subst.
      unfold fgtb in G. split.
      * apply strictly_sorted_app. split; [exact S1|]. split.
        -- constructor; [exact S2|]. constructor; [exact G|].
           eapply Forall_impl; [|exact A2]. intros y L. exact (lt_trans _ _ _ G L).
        -- intros x y I [<- | J]; [|now apply C].
           exact (passed_values_below n pre Nn N1 P x I).
      * apply Forall_app. split; [exact N1|]. constructor; [exact Nn | exact N2].
Qed.

(** *** A merge keeps the order when its value falls between the two *)

Lemma merge_ascending (l1 : list (Bin F)) (a b : Bin F) (l2 : list (Bin F)) :
  strictly_ascending (l1 ++ a :: b :: l2) ->
  fltb (Value a) (Value (mergedbin a b)) = true ->
  fltb (Value (mergedbin a b)) (Value b) = true ->
  number (Value (mergedbin a b)) ->
  strictly_ascending (l1 ++ mergedbin a b :: l2).
Proof.
  unfold strictly_ascending. rewrite !map_app. simpl map.
  intros [S N] La Lb Nm.
  apply strictly_sorted_app in S. destruct S as (S1 & S2 & C).
  apply Forall_app in N. destruct N as [N1 N2].
  inversion S2 as [|? ? S2' A2]; subst. inversion S2' as [|? ? S2'' A2']; subst.
  inversion N2 as [|? ? _ N2']; subst. inversion N2' as [|? ? _ N2'']; subst.
  split.
  - apply strictly_sorted_app. split; [exact S1|]. split.
    + constructor; [exact S2''|].
      eapply Forall_impl; [|exact A2']. intros y L. exact (lt_trans _ _ _ Lb L).
    + intros x y I [<- | J].
      * apply (lt_trans _ (Value a)); [|exact La]. apply C; simpl; auto.
      * apply C; simpl; auto.
  - apply Forall_app. split; [exact N1|]. constructor; [exact Nm | exact N2''].
Qed.

(** *** While the bins fit the budget *)

Lemma AddAll_ascending_while_fitting (samples : list F) (h : WeightedHistogram F) :
  strictly_ascending (Bins h) -> Forall number samples ->
  (Z.of_nat (length (Bins h) + length samples) <= Maxbins h)%Z ->
  exists h', AddAll h samples = Ok h' /\ strictly_ascending (Bins h').
Proof.
  revert h. induction samples as [|x rest IH]; intros h Asc Ns L.
  - exists h. split; [reflexivity | exact Asc].
  - inversion Ns as [|? ? Nx Nr]; subst. simpl AddAll.
    pose proof (add_decay_length h x) as Ln. simpl length in L.
    rewrite (Add_when_fits h x) by lia.
    apply IH; simpl; [|exact Nr | lia].
    apply add_decay_ascending; assumption.
Qed.

End Ordered.

(** ** The empty histogram on binary64 *)

Lemma float_eqb_zero (t : float) :
  PrimFloat.eqb t 0%float = true -> t = 0%float \/ t = (-0)%float.
Proof.
  rewrite FloatAxioms.eqb_spec.
  intros E.
  assert (Z : exists s, Prim2SF t = S754_zero s).
  { change (Prim2SF 0%float) with (S754_zero false) in E.
    destruct (Prim2SF t) as [s | s | | s m e]; try discriminate E.
    - now exists s.
    - destruct s; discriminate E.
    - destruct s; discriminate E. }
  destruct Z as [[|] Z].
  - right. apply Prim2SF_inj. rewrite Z. reflexivity.
  - left. apply Prim2SF_inj. rewrite Z. reflexivity.
Qed.

(** C7.  On binary64, whenever [Total == 0], [Mean] and [Variance] return
    exactly [0] through their guard; [CDF] has no guard, and on the empty
    histogram it returns the quotient of zero by zero, a NaN, for every [x]. *)
Theorem empty_histogram_queries (h : WeightedHistogram float) :
  PrimFloat.eqb (Total h) 0%float = true ->
  Mean h = 0%float /\
  Variance h = 0%float /\
  (Bins h = [] -> forall x, PrimFloat.is_nan (CDF h x) = true).
Proof.
  intros E. split; [|split].
  - exact (Mean_guard h E).
  - exact (Variance_guard h E).
  - intros B x. rewrite (CDF_no_bins h x B).
    destruct (float_eqb_zero _ E) as [-> | ->]; reflexivity.
Qed.

Lemma empty_histogram_queries_witness :
  let h := NewWeightedHistogram 5 0.5%float in
  Mean h = 0%float /\
  Variance h = 0%float /\
  (Bins h = [] -> forall x, PrimFloat.is_nan (CDF h x) = true).
Proof.
  apply (empty_histogram_queries (NewWeightedHistogram 5 0.5%float)).
  reflexivity.
Defined.

(** ** binary64: the order of the floats *)

(** [<], [<=] and [==] on primitive floats are those of their specification
    [SFcompare]; the lemmas below are read off it, NaN and the two zeros
    included. *)

Ltac sf_destruct :=
  repeat match goal with
         | x : spec_float |- _ => destruct x as [[|] | [|] | | [|] ? ?]
         end.

Ltac sf_compare :=
  change (Pos.compare_cont Eq) with Pos.compare in *;
  repeat match goal with
         | H : context [Z.compare ?a ?b] |- _ => destruct (Z.compare_spec a b)
         | |- context [Z.compare ?a ?b] => destruct (Z.compare_spec a b)
         | H : context [Pos.compare ?a ?b] |- _ => destruct (Pos.compare_spec a b)
         | |- context [Pos.compare ?a ?b] => destruct (Pos.compare_spec a b)
         end;
  simpl in *; subst; try congruence; try discriminate; try lia.

Ltac sf_order := intros; sf_destruct; simpl in *; try congruence; try discriminate; sf_compare.

Lemma SFcompare_lt_trans (a b c : spec_float) :
  SFcompare a b = Some Lt -> SFcompare b c = Some Lt -> SFcompare a c = Some Lt.
Proof. sf_order. Qed.

Lemma SFcompare_eq_lt_trans (a b c : spec_float) :
  SFcompare a b = Some Eq -> SFcompare b c = Some Lt -> SFcompare a c = Some Lt.
Proof. sf_order. Qed.

Lemma SFcompare_swap (a b : spec_float) :
  SFcompare a b = Some Lt -> SFcompare b a = Some Gt.
Proof. sf_order. Qed.

Lemma SFcompare_Gt_swap (a b : spec_float) :
  SFcompare a b = Some Gt -> SFcompare b a = Some Lt.
Proof. sf_order. Qed.

Lemma SFcompare_None (a b : spec_float) :
  SFcompare a b = None -> a = S754_nan \/ b = S754_nan.
Proof. sf_order; auto. Qed.

Lemma SFcompare_refl (a : spec_float) :
  SFcompare a a = Some Eq \/ a = S754_nan.
Proof. sf_order; auto. Qed.

Lemma float_ltb_Lt (x y : float) :
  PrimFloat.ltb x y = true <-> SFcompare (Prim2SF x) (Prim2SF y) = Some Lt.
Proof.
  rewrite FloatAxioms.ltb_spec. unfold SFltb.
  destruct (SFcompare (Prim2SF x) (Prim2SF y)) as [[| |]|]; split; congruence.
Qed.

Lemma float_leb_Le (x y : float) :
  PrimFloat.leb x y = true <->
  SFcompare (Prim2SF x) (Prim2SF y) = Some Lt \/
  SFcompare (Prim2SF x) (Prim2SF y) = Some Eq.
Proof.
  rewrite FloatAxioms.leb_spec. unfold SFleb.
  destruct (SFcompare (Prim2SF x) (Prim2SF y)) as [[| |]|];
    split; intros E; auto; try discriminate; destruct E; discriminate.
Qed.

Lemma float_eqb_Eq (x y : float) :
  PrimFloat.eqb x y = true <-> SFcompare (Prim2SF x) (Prim2SF y) = Some Eq.
Proof.
  rewrite FloatAxioms.eqb_spec. unfold SFeqb.
  destruct (SFcompare (Prim2SF x) (Prim2SF y)) as [[| |]|]; split; congruence.
Qed.

Lemma float_ltb_trans (a b c : float) :
  PrimFloat.ltb a b = true -> PrimFloat.ltb b c = true -> PrimFloat.ltb a c = true.
Proof. rewrite !float_ltb_Lt. apply SFcompare_lt_trans. Qed.

Lemma float_leb_ltb_trans (a b c : float) :
  PrimFloat.leb a b = true -> PrimFloat.ltb b c = true -> PrimFloat.ltb a c = true.
Proof.
  rewrite float_leb_Le, !float_ltb_Lt. intros [L | E] L'.
  - exact (SFcompare_lt_trans _ _ _ L L').
  - exact (SFcompare_eq_lt_trans _ _ _ E L').
Qed.

Lemma float_ltb_leb (a b : float) :
  PrimFloat.ltb a b = true -> PrimFloat.leb a b = true.
Proof. rewrite float_ltb_Lt, float_leb_Le. auto. Qed.

Lemma float_ltb_not_leb (a b : float) :
  PrimFloat.ltb a b = true -> PrimFloat.leb b a = false.
Proof.
  rewrite float_ltb_Lt. intros L. apply not_true_is_false.
  rewrite float_leb_Le. rewrite (SFcompare_swap _ _ L). intros [E | E]; discriminate.
Qed.

Lemma float_ltb_not_eqb (a b : float) :
  PrimFloat.ltb a b = true -> PrimFloat.eqb a b = false.
Proof.
  rewrite float_ltb_Lt. intros L. apply not_true_is_false.
  rewrite float_eqb_Eq. congruence.
Qed.

(** Among numbers (floats that equal themselves, that is, all but NaN) the
    order is total. *)
Lemma float_trichotomy (a b : float) :
  PrimFloat.eqb a a = true -> PrimFloat.eqb b b = true ->
  PrimFloat.eqb a b = false -> PrimFloat.ltb b a = false ->
  PrimFloat.ltb a b = true.
Proof.
  intros Na Nb E G.
  apply float_eqb_Eq in Na. apply float_eqb_Eq in Nb.
  apply float_ltb_Lt.
  destruct (SFcompare (Prim2SF a) (Prim2SF b)) as [[| |]|] eqn:C.
  - apply float_eqb_Eq in C. congruence.
  - reflexivity.
  - apply SFcompare_Gt_swap, float_ltb_Lt in C. congruence.
  - destruct (SFcompare_None _ _ C) as [N | N]; rewrite N in *; discriminate.
Qed.

Lemma float_ltb_numbers (a b : float) :
  PrimFloat.ltb a b = true -> PrimFloat.eqb a a = true /\ PrimFloat.eqb b b = true.
Proof.
  rewrite float_ltb_Lt, !float_eqb_Eq. intros L.
  split.
  - destruct (SFcompare_refl (Prim2SF a)) as [E | N]; [exact E|].
    rewrite N in L. discriminate.
  - destruct (SFcompare_refl (Prim2SF b)) as [E | N]; [exact E|].
    rewrite N in L. destruct (Prim2SF a) as [[|]|[|]| |[|] ? ?]; discriminate.
Qed.

(** ** binary64: signs under rounding *)

Lemma shr_1_nonneg (mrs : shr_record) : (0 <= shr_m mrs)%Z -> (0 <= shr_m (shr_1 mrs))%Z.
Proof.
  destruct mrs as [m r s]. destruct m as [|[p|p|]|p]; simpl; lia.
Qed.

Lemma iter_pos_shr_1_nonneg (p : positive) (mrs : shr_record) :
  (0 <= shr_m mrs)%Z -> (0 <= shr_m (iter_pos shr_1 p mrs))%Z.
Proof.
  revert mrs. induction p as [p IH | p IH |]; intros mrs N; simpl.
  - apply IH, IH, shr_1_nonneg, N.
  - apply IH, IH, N.
  - apply shr_1_nonneg, N.
Qed.

Lemma shr_fexp_nonneg (prec emax m e : Z) (l : location) :
  (0 <= m)%Z -> (0 <= shr_m (fst (shr_fexp prec emax m e l)))%Z.
Proof.
  intros N. unfold shr_fexp, shr.
  assert (R : (0 <= shr_m (shr_record_of_loc m l))%Z).
  { destruct l as [|[| |]]; exact N. }
  destruct (fexp prec emax (Zdigits2 m + e) - e)%Z; simpl; auto.
  now apply iter_pos_shr_1_nonneg.
Qed.

Lemma round_nearest_even_nonneg (m : Z) (l : location) :
  (0 <= m)%Z -> (0 <= round_nearest_even m l)%Z.
Proof.
  intros N. destruct l as [|[| |]]; simpl; try lia.
  destruct (Z.even m); lia.
Qed.

(** Rounding keeps the sign it is given. *)
Lemma binary_round_aux_sign (prec emax : Z) (sx : bool) (mx ex : Z) (lx : location) :
  (0 <= mx)%Z ->
  match binary_round_aux prec emax sx mx ex lx with
  | S754_zero s => s = sx
  | S754_finite s _ _ => s = sx
  | S754_infinity s => s = sx
  | S754_nan => False
  end.
Proof.
  intros N. unfold binary_round_aux.
  pose proof (shr_fexp_nonneg prec emax mx ex lx N) as N1.
  destruct (shr_fexp prec emax mx ex lx) as [mrs' e'].
  simpl in N1.
  pose proof (shr_fexp_nonneg prec emax
                (round_nearest_even (shr_m mrs') (loc_of_shr_record mrs')) e' loc_Exact
                (round_nearest_even_nonneg _ _ N1)) as N2.
  destruct (shr_fexp prec emax
              (round_nearest_even (shr_m mrs') (loc_of_shr_record mrs')) e' loc_Exact)
    as [mrs'' e''].
  simpl in N2. destruct (shr_m mrs'') as [|p|p]; try lia; try reflexivity.
  destruct (e'' <=? emax - prec)%Z; reflexivity.
Qed.

Lemma binary_round_aux_nonpos (prec emax mx ex : Z) (lx : location) :
  (0 <= mx)%Z -> sf_nonpos (binary_round_aux prec emax true mx ex lx).
Proof.
  intros N. pose proof (binary_round_aux_sign prec emax true mx ex lx N) as S.
  destruct (binary_round_aux prec emax true mx ex lx); simpl; auto.
Qed.

Lemma SFmul_nonpos (prec emax : Z) (q t : spec_float) (m : positive) (e : Z) :
  sf_nonpos q -> t = S754_finite false m e -> sf_nonpos (SFmul prec emax q t).
Proof.
  intros Q ->. destruct q as [s | s | | s mq eq]; simpl in *; auto.
  - subst s. reflexivity.
  - subst s. apply binary_round_aux_nonpos. lia.
Qed.

Lemma SFsub_nonpos (prec emax : Z) (p w : spec_float) :
  sf_nonpos p -> SFleb (S754_zero false) w = true ->
  sf_nonpos (SFsub prec emax p w).
Proof.
  intros P W.
  destruct w as [sw | sw | | sw mw ew]; simpl in W; try discriminate.
  - destruct p as [sp | sp | | sp mp ep]; simpl in *; auto.
    destruct sp, sw; simpl; auto.
  - destruct sw; [discriminate|].
    destruct p as [sp | sp | | sp mp ep]; simpl in *; auto.
    subst sp. reflexivity.
  - destruct sw; [discriminate|].
    destruct p as [sp | sp | | sp mp ep]; simpl in *; auto.
    subst sp. unfold cond_Zopp.
    destruct (shl_align mp ep (Z.min ep ew)) as [a ea].
    destruct (shl_align mw ew (Z.min ep ew)) as [b eb]. simpl fst.
    change (- Z.pos a - Z.pos b)%Z with (Z.neg (a + b)).
    unfold binary_normalize, binary_round.
    destruct (shl_align (a + b) (Z.min ep ew)
                (fexp prec emax (Z.pos (digits2_pos (a + b)) + Z.min ep ew)))
      as [mz ez].
    apply binary_round_aux_nonpos. lia.
Qed.

Lemma sf_nonpos_leb (x : spec_float) :
  sf_nonpos x <-> SFleb x (S754_zero false) = true.
Proof.
  destruct x as [s | [|] | | [|] m e]; simpl; split; auto; try discriminate;
    try contradiction.
Qed.

(** A float strictly between zero and infinity. *)
Lemma float_positive_finite (t : float) :
  PrimFloat.ltb 0 t = true -> PrimFloat.ltb t infinity = true ->
  exists m e, Prim2SF t = S754_finite false m e.
Proof.
  rewrite !FloatAxioms.ltb_spec.
  change (Prim2SF 0) with (S754_zero false).
  change (Prim2SF infinity) with (S754_infinity false).
  destruct (Prim2SF t) as [s | [|] | | [|] m e]; simpl; try discriminate.
  intros _ _. now exists m, e.
Qed.

(** With [q <= 0], [0 < t < +oo] and [0 <= w], the float [q * t - w] is
    [<= 0]: no rounding changes a sign. *)
Lemma float_nonpositive_remainder (q t w : float) :
  PrimFloat.leb q 0 = true ->
  PrimFloat.ltb 0 t = true -> PrimFloat.ltb t infinity = true ->
  PrimFloat.leb 0 w = true ->
  PrimFloat.leb (PrimFloat.sub (PrimFloat.mul q t) w) 0 = true.
Proof.
  intros Q T0 T1 W.
  destruct (float_positive_finite t T0 T1) as (m & e & Et).
  rewrite FloatAxioms.leb_spec in Q, W |- *.
  change (Prim2SF 0) with (S754_zero false) in *.
  rewrite FloatAxioms.sub_spec, FloatAxioms.mul_spec.
  apply sf_nonpos_leb. apply SFsub_nonpos; [|exact W].
  apply (SFmul_nonpos _ _ _ _ m e); [|exact Et].
  apply sf_nonpos_leb. exact Q.
Qed.

(** ** binary64: a positive finite number divided by itself *)

Lemma Z_div_eucl_multiple (m : positive) (k : Z) :
  Z.div_eucl (Z.pos m * k) (Z.pos m) = (k, 0%Z).
Proof.
  pose proof (Z_div_mod (Z.pos m * k) (Z.pos m) eq_refl) as D.
  destruct (Z.div_eucl (Z.pos m * k) (Z.pos m)) as [q r].
  destruct D as [E B].
  assert (q = k) by nia. subst q.
  f_equal. lia.
Qed.

Lemma SFdiv_self (s : bool) (m : positive) (e : Z) :
  SFdiv prec emax (S754_finite s m e) (S754_finite s m e)
  = S754_finite false 4503599627370496 (-52).
Proof.
  unfold SFdiv, SFdiv_core_binary.
  replace (Zdigits2 (Z.pos m) + e - (Zdigits2 (Z.pos m) + e))%Z with 0%Z by lia.
  replace (e - e)%Z with 0%Z by lia.
  change (Z.min (fexp prec emax 0) 0) with (-53)%Z.
  change (0 - -53)%Z with 53%Z. cbv iota beta.
  rewrite Z.shiftl_mul_pow2 by lia.
  rewrite Z_div_eucl_multiple.
  replace (new_location (Z.pos m) 0) with loc_Exact
    by (unfold new_location; destruct (Z.even (Z.pos m)); reflexivity).
  destruct s; reflexivity.
Qed.

Lemma float_div_self (t : float) :
  PrimFloat.ltb 0 t = true -> PrimFloat.ltb t infinity = true ->
  PrimFloat.div t t = 1%float.
Proof.
  intros T0 T1. destruct (float_positive_finite t T0 T1) as (m & e & Et).
  apply Prim2SF_inj. rewrite FloatAxioms.div_spec, Et.
  unfold FloatAxioms.SF64div. rewrite SFdiv_self. reflexivity.
Qed.

(** Two positive finite floats that compare equal are the same float. *)
Lemma float_eqb_positive (t s : float) :
  PrimFloat.ltb 0 t = true -> PrimFloat.eqb t s = true -> s = t.
Proof.
  rewrite FloatAxioms.ltb_spec, FloatAxioms.eqb_spec.
  change (Prim2SF 0) with (S754_zero false).
  intros T E. apply Prim2SF_inj.
  destruct (Prim2SF t) as [a | [|] | | [|] m e]; simpl in T; try discriminate;
    destruct (Prim2SF s) as [b | [|] | | [|] m' e']; simpl in E; try discriminate;
    try reflexivity.
  unfold SFeqb in E. simpl in E.
  destruct (Z.compare_spec e e'); try discriminate. subst e'.
  change (Pos.compare_cont Eq m m') with (Pos.compare m m') in E.
  destruct (Pos.compare_spec m m'); try discriminate. now subst.
Qed.

(** ** The claims on binary64 *)

(** *** Compaction *)


(** *** Bounded and sorted *)



(** *** The sentinel of [Quantile] *)

(** C6, as the code has it.  On binary64.  The value [Quantile] returns when
    no bin is selected is the literal [-1].  In a histogram none of whose
    bins holds the value [-1], [Quantile] returns [-1] exactly when the
    remainder is [<= 0] after no bin, and the [-1] it then returns differs
    from the value of every bin. *)
Theorem Quantile_sentinel_unless_a_bin_holds_it (h : WeightedHistogram float) (q : float) :
  (forall b, In b (Bins h) -> PrimFloat.eqb (Value b) (-1) = false) ->
  (Quantile h q = (-1)%float <-> selects_none (PrimFloat.mul q (Total h)) (Bins h)) /\
  (Quantile h q = (-1)%float ->
   forall b, In b (Bins h) -> PrimFloat.eqb (Value b) (Quantile h q) = false).
Proof.
  intros N. split.
  - unfold Quantile.
    destruct (quantile_scan_cases (Bins h) (fmul q (Total h)))
      as [(i & b & Nb & [S1 S2] & Q) | [S Q]].
    + split.
      * intros E. exfalso. rewrite Q in E.
        pose proof (N b (nth_error_In _ _ Nb)) as Nb'.
        rewrite E in Nb'. vm_compute in Nb'. discriminate Nb'.
      * intros S. exfalso.
        assert (L : (i < length (Bins h))%nat) by (apply nth_error_Some; congruence).
        specialize (S i L). cbn [fleb f0 binary64 fmul] in *. congruence.
    + split; [intros _; exact S | intros _; exact Q].
  - intros E b I. rewrite E. exact (N b I).
Qed.

Lemma Quantile_sentinel_unless_a_bin_holds_it_witness :
  let h := {| Bins := [mkBin 1 1; mkBin 3 1]%float; Maxbins := 5;
              Total := 2%float; Alpha := 0.5%float |} in
  (Quantile h 2%float = (-1)%float <-> selects_none (PrimFloat.mul 2 (Total h)) (Bins h)) /\
  (Quantile h 2%float = (-1)%float ->
   forall b, In b (Bins h) -> PrimFloat.eqb (Value b) (Quantile h 2%float) = false).
Proof.
  intros h. apply (Quantile_sentinel_unless_a_bin_holds_it h 2%float).
  intros b [<- | [<- | []]]; reflexivity.
Defined.

(** *** The largest value *)



(** *** A quantile at or below zero *)

(** C10, as the code has it.  On binary64.  In a histogram whose [Total] is
    positive and finite and whose first bin has a weight that is not negative
    (and not NaN), [Quantile q] with [q <= 0] returns the value of the first
    bin: [q * Total] is [<= 0], and so is what is left of it after the first
    weight is subtracted, whatever the rounding. *)
Theorem Quantile_at_nonpositive_q (h : WeightedHistogram float) (q : float)
    (b : Bin float) (rest : list (Bin float)) :
  Bins h = b :: rest ->
  PrimFloat.ltb 0 (Total h) = true -> PrimFloat.ltb (Total h) infinity = true ->
  PrimFloat.leb 0 (Count b) = true ->
  PrimFloat.leb q 0 = true ->
  Quantile h q = Value b.
Proof.
  intros B T0 T1 W Q. unfold Quantile. rewrite B. simpl.
  rewrite (float_nonpositive_remainder q (Total h) (Count b) Q T0 T1 W).
  reflexivity.
Qed.

Lemma Quantile_at_nonpositive_q_witness :
  let h := {| Bins := [mkBin 5 0.25; mkBin 6 2]%float; Maxbins := 3;
              Total := 2.25%float; Alpha := 0.25%float |} in
  Quantile h (-3)%float = 5%float.
Proof.
  intros h.
  apply (Quantile_at_nonpositive_q h (-3)%float (mkBin 5 0.25)%float [mkBin 6 2]%float);
    reflexivity.
Defined.

(** *** The cached total, on a run *)

Lemma Add_total_is_sum_before_merging_witness :
  let h := {| Bins := [mkBin 3 0x1.999999999999ap-4; mkBin 4 1]%float; Maxbins := 2;
              Total := 0x1.199999999999ap+0%float;
              Alpha := 0x1.999999999999ap-4%float |} in
  exists h',
    Add h 1%float = Ok h' /\
    Total h' = sumCount (Bins (add_decay h 1%float)) /\
    regrouped (map Count (Bins (add_decay h 1%float))) (map Count (Bins h')) /\
    ((Z.of_nat (length (Bins (add_decay h 1%float))) <= Maxbins h)%Z ->
     Bins h' = Bins (add_decay h 1%float) /\ Total h' = sumCount (Bins h')).
Proof.
  intros h. destruct (Add h 1%float) as [h'| |] eqn:E.
  - exists h'. split; [reflexivity|].
    exact (Add_total_is_sum_before_merging h h' 1%float E).
  - vm_compute in E. discriminate E.
  - vm_compute in E. discriminate E.
Defined.

(** ** The claims as stated, run on binary64 *)

(** C1.  With [alpha = 0.25] and bins of weight 1 at the values 1 and 3:
    adding 2 leaves the two old bins with weight 0.25, not
    [1 * (1 - 0.25) = 0.75]; adding 4, a new maximum, appends the bin and
    decays nothing. *)
Lemma decay_is_not_by_one_minus_alpha :
  let h := {| Bins := [mkBin 1 1; mkBin 3 1]; Maxbins := 5;
              Total := 2; Alpha := 0.25 |}%float in
  (exists h',
     Add h 2%float = Ok h' /\
     map Value (Bins h') = [1; 2; 3]%float /\
     map Count (Bins h') = [0.25; 1; 0.25]%float /\
     PrimFloat.eqb 0.25 (PrimFloat.mul 1 (PrimFloat.sub 1 (Alpha h))) = false) /\
  (exists h',
     Add h 4%float = Ok h' /\
     map Value (Bins h') = [1; 3; 4]%float /\
     map Count (Bins h') = [1; 1; 1]%float /\
     PrimFloat.eqb 1 (PrimFloat.mul 1 (PrimFloat.sub 1 (Alpha h))) = false).
Proof.
  split; eexists; (split; [vm_compute; reflexivity|]); repeat split; reflexivity.
Qed.



(** C4, as stated, fails: [New(2, 0.1)], then 3, 4, 1.  The third [Add]
    sums the weights 1, 0.1, 0.1 into [Total] and then merges the bins at 3
    and 4; the two bins left weigh 1 and 0.2, which sum to 1.2, while [Total]
    is the next float above. *)
Lemma Total_differs_from_the_sum_after_a_merge :
  exists h,
    AddAll (NewWeightedHistogram 2 0x1.999999999999ap-4%float) [3; 4; 1]%float = Ok h /\
    map Count (Bins h) = [1; 0x1.999999999999ap-3]%float /\
    Total h = 0x1.3333333333334p+0%float /\
    sumCount (Bins h) = 0x1.3333333333333p+0%float /\
    PrimFloat.eqb (Total h) (sumCount (Bins h)) = false.
Proof.
  eexists. split; [vm_compute; reflexivity|]. repeat split; reflexivity.
Qed.


(** C6, as stated, fails: after the single sample [-1] the histogram holds
    a bin of value [-1]; [Quantile 2] selects no bin and returns the
    sentinel, which is that bin's value (and also what [Quantile 0.5]
    returns for the bin itself). *)
Lemma Quantile_sentinel_is_a_bin_value :
  exists h,
    AddAll (NewWeightedHistogram 3 0.5%float) [-1]%float = Ok h /\
    selects_none (PrimFloat.mul 2 (Total h)) (Bins h) /\
    Quantile h 2%float = (-1)%float /\
    (exists b, In b (Bins h) /\ Value b = Quantile h 2%float) /\
    Quantile h 0.5%float = Quantile h 2%float.
Proof.
  eexists. split; [vm_compute; reflexivity|].
  split; [|split; [|split]].
  - intros [|j] L; [vm_compute; reflexivity | simpl in L; lia].
  - reflexivity.
  - eexists. split; [left; reflexivity | reflexivity].
  - reflexivity.
Qed.

(** C8, as stated, fails: a decay factor of 7 and a budget of 0 are both
    accepted at construction.  The histogram with [alpha = 7] is used like
    any other; the one with budget 0 is returned by the constructor as
    well, and it is its first [Add] that panics. *)
Lemma construction_accepts_out_of_range_parameters :
  (exists h,
     AddAll (NewWeightedHistogram 4 7%float) [1; 3; 2]%float = Ok h /\
     map Value (Bins h) = [1; 2; 3]%float /\ Alpha h = 7%float /\
     Quantile h 1%float = 3%float) /\
  NewWeightedHistogram 0 0.5%float
  = {| Bins := []; Maxbins := 0; Total := 0%float; Alpha := 0.5%float |} /\
  Add (NewWeightedHistogram 0 0.5%float) 1%float = Panic.
Proof.
  split; [|split; reflexivity].
  eexists. split; [vm_compute; reflexivity|]. repeat split; reflexivity.
Qed.


(** C10, as stated, fails: [New(3, -1)], then 5, 6, 6.  The decay gives the
    first bin the weight [-1]; [Total] is [-1 + 2 = 1 > 0], and [Quantile 0]
    walks past the first bin and returns 6. *)
Lemma negative_first_weight_skips_the_first_bin :
  exists h,
    AddAll (NewWeightedHistogram 3 (-1)%float) [5; 6; 6]%float = Ok h /\
    map Value (Bins h) = [5; 6]%float /\ map Count (Bins h) = [-1; 2]%float /\
    Total h = 1%float /\ PrimFloat.ltb 0 (Total h) = true /\
    Quantile h 0%float = 6%float.
Proof.
  eexists. split; [vm_compute; reflexivity|]. repeat split; reflexivity.
Qed.

(** ** The scenarios of the specification, run on binary64 *)

(** [New(5, 0.1)], then 1, 2, 3, 4, 5, 6: five bins are left, the first
    minimal gap (between 1 and 2) was merged, [Quantile 1] is the largest
    value and [CDF] there is 1. *)
Example six_samples_five_bins :
  exists h,
    AddAll (NewWeightedHistogram 5 0x1.999999999999ap-4%float)
           [1; 2; 3; 4; 5; 6]%float = Ok h /\
    map Value (Bins h) = [1.5; 3; 4; 5; 6]%float /\
    map Count (Bins h) = [2; 1; 1; 1; 1]%float /\
    Quantile h 1%float = 6%float /\ CDF h 6%float = 1%float.
Proof.
  eexists. split; [vm_compute; reflexivity|]. repeat split; reflexivity.
Qed.

(** * Further properties of the code *)

(** ** Exact arithmetic: the rationals *)

(** The properties below that are stated on [WeightedHistogram Q] read the
    code in exact arithmetic. *)

Local Open Scope Q_scope.

Ltac numeric :=
  unfold fgtb in *;
  cbn [fadd fsub fmul fdiv feqb fltb fleb f0 f1 fneg1 f1e99 rational] in *.

Lemma Qlt_bool_iff (a b : Q) : Qlt_bool a b = true <-> a < b.
Proof.
  unfold Qlt_bool. rewrite negb_true_iff.
  split; intros E.
  - apply Qnot_le_lt. intros L. apply Qle_bool_iff in L. congruence.
  - destruct (Qle_bool b a) eqn:L; [|reflexivity].
    apply Qle_bool_iff in L. exfalso. exact (Qlt_not_le _ _ E L).
Qed.

Lemma Qlt_bool_false (a b : Q) : Qlt_bool a b = false <-> b <= a.
Proof.
  unfold Qlt_bool. rewrite negb_false_iff. apply Qle_bool_iff.
Qed.

Lemma Qeq_bool_false (a b : Q) : Qeq_bool a b = false <-> ~ a == b.
Proof.
  split; intros E.
  - intros Q. apply Qeq_bool_iff in Q. congruence.
  - destruct (Qeq_bool a b) eqn:L; [|reflexivity].
    apply Qeq_bool_iff in L. contradiction.
Qed.

(** *** Strictly sorted lists of rationals *)

Lemma sorted_app (l1 l2 : list Q) :
  StronglySorted Qlt (l1 ++ l2) <->
  StronglySorted Qlt l1 /\ StronglySorted Qlt l2 /\
  (forall x y, In x l1 -> In y l2 -> x < y).
Proof.
  induction l1 as [|a l1 IH]; simpl.
  - split.
    + intros S. repeat split; [constructor | exact S | contradiction].
    + intros (_ & S & _). exact S.
  - split.
    + intros S. inversion S as [|? ? S' A]; subst.
      apply IH in S'. destruct S' as (S1 & S2 & C).
      rewrite Forall_app in A. destruct A as [A1 A2].
      repeat split; [constructor; assumption | assumption |].
      intros x y [<- | I] J.
      * rewrite Forall_forall in A2. now apply A2.
      * now apply C.
    + intros (S1 & S2 & C). inversion S1 as [|? ? S1' A1]; subst.
      constructor.
      * apply IH. repeat split; auto.
      * rewrite Forall_app. split; [assumption|].
        rewrite Forall_forall. intros y J. apply C; auto.
Qed.

Lemma map_Value_decayed (alpha : Q) (bins : list (Bin Q)) :
  map Value (map (decayed alpha) bins) = map Value bins.
Proof. rewrite map_map. apply map_ext. reflexivity. Qed.

(** *** Sums of weights *)

Lemma weight_sum_app (l1 l2 : list (Bin Q)) :
  weight_sum (l1 ++ l2) == weight_sum l1 + weight_sum l2.
Proof.
  induction l1 as [|a l1 IH]; simpl.
  - ring.
  - rewrite IH. ring.
Qed.

Lemma sumCount_from (bins : list (Bin Q)) (acc : Q) :
  fold_left (fun total b => fadd total (Count b)) bins acc == acc + weight_sum bins.
Proof.
  revert acc. induction bins as [|b rest IH]; intros acc; simpl.
  - ring.
  - rewrite IH. numeric. ring.
Qed.

Lemma sumCount_weight_sum (bins : list (Bin Q)) : sumCount bins == weight_sum bins.
Proof. unfold sumCount. rewrite sumCount_from. numeric. ring. Qed.

(** ** For every instance of the arithmetic, binary64 included *)

Section GenericBehaviour.

Context {F : Type} `{Float64 F}.

Lemma add_decay_nonempty (h : WeightedHistogram F) (n : F) :
  Bins (add_decay h n) <> [].
Proof.
  destruct (add_decay_cases h n) as [[-> _] | (pre & b & post & _ & _ & D)].
  - now destruct (Bins h).
  - destruct D as [[_ ->] | (_ & _ & ->)]; now destruct pre.
Qed.

Lemma trim_loop_no_budget (fuel : nat) (maxbins : Z) (bins : list (Bin F)) :
  (maxbins <= 0)%Z -> bins <> [] -> (length bins < fuel)%nat ->
  trim_loop fuel maxbins bins = Panic.
Proof.
  intros M. revert bins. induction fuel as [|fuel IH]; intros bins N L; [lia|].
  simpl. destruct (Z.gtb_spec (Z.of_nat (length bins)) maxbins) as [G|G].
  - destruct (merge_at bins (closest bins)) as [bins'| |] eqn:E.
    + destruct (merge_at_Ok _ _ _ E) as (l1 & a & b & l2 & _ & -> & ->).
      apply IH.
      * now destruct l1.
      * rewrite length_app in *. simpl in *. lia.
    + reflexivity.
    + exfalso. exact (merge_at_never_out_of_fuel _ _ E).
  - exfalso. destruct bins; [contradiction | simpl in G; lia].
Qed.

Lemma trim_loop_nonempty (fuel : nat) (maxbins : Z) (bins bins' : list (Bin F)) :
  trim_loop fuel maxbins bins = Ok bins' -> bins <> [] ->
  bins' <> [] /\ (length bins' <= length bins)%nat.
Proof.
  revert bins. induction fuel as [|fuel IH]; intros bins; simpl;
    destruct (Z.of_nat (length bins) >? maxbins)%Z.
  - discriminate.
  - intros E N. inversion E; subst. auto.
  - destruct (merge_at bins (closest bins)) as [b1| |] eqn:M; try discriminate.
    destruct (merge_at_Ok _ _ _ M) as (l1 & a & b & l2 & _ & -> & ->).
    intros E _. destruct (IH _ E) as [N' L'].
    + now destruct l1.
    + split; [exact N'|]. rewrite length_app in *. simpl in *. lia.
  - intros E N. inversion E; subst. auto.
Qed.

(** X1.  A histogram whose budget [Maxbins] is zero or negative accepts no
    sample at all: whatever bins it holds and whatever the sample is, [Add]
    panics, because [trim] keeps merging until a single bin is left and then
    indexes [Bins[-1]]. *)
Theorem Add_without_budget_panics (h : WeightedHistogram F) (n : F) :
  (Maxbins h <= 0)%Z -> Add h n = Panic.
Proof.
  intros M. unfold Add, trim.
  destruct (add_decay_fields h n) as [Mx _]. rewrite Mx.
  rewrite trim_loop_no_budget; auto using add_decay_nonempty.
Qed.

(** X2.  While the histogram holds fewer bins than its budget, [Add] never
    panics and merges nothing: it returns the bin list that the scan and the
    deferred [scaleDown] left, at most one bin longer than before, with
    [Total] the left-to-right sum of its weights and the configuration
    unchanged. *)
Theorem Add_below_budget_returns (h : WeightedHistogram F) (n : F) :
  (Z.of_nat (length (Bins h)) < Maxbins h)%Z ->
  Add h n = Ok {| Bins := Bins (add_decay h n); Maxbins := Maxbins h;
                  Total := sumCount (Bins (add_decay h n)); Alpha := Alpha h |} /\
  (length (Bins h) <= length (Bins (add_decay h n)) <= S (length (Bins h)))%nat.
Proof.
  intros L. pose proof (add_decay_length h n) as Ln. split; [|exact Ln].
  apply Add_when_fits. lia.
Qed.

(** X3.  Whenever [Add] returns, on any arithmetic: the budget and the decay
    factor are unchanged, the histogram is not empty, it has at most
    [Maxbins] bins, and at most one bin more than before the call. *)
Theorem Add_result_shape (h h' : WeightedHistogram F) (n : F) :
  Add h n = Ok h' ->
  Maxbins h' = Maxbins h /\ Alpha h' = Alpha h /\
  Bins h' <> [] /\
  (Z.of_nat (length (Bins h')) <= Maxbins h)%Z /\
  (length (Bins h') <= S (length (Bins h)))%nat.
Proof.
  unfold Add. intros E. apply trim_Ok in E.
  destruct (add_decay_fields h n) as [Mx Al]. rewrite Mx, Al in E.
  destruct E as (L & M' & _ & A').
  destruct (trim_loop_nonempty _ _ _ _ L (add_decay_nonempty h n)) as [N Le].
  pose proof (add_decay_length h n) as Ln.
  repeat split; auto.
  - exact (trim_loop_within_budget _ _ _ _ L).
  - lia.
Qed.

Lemma quantile_scan_value_or_sentinel (bins : list (Bin F)) (count : F) :
  quantile_scan count bins = fneg1 \/
  exists b, In b bins /\ quantile_scan count bins = Value b.
Proof.
  revert count. induction bins as [|b rest IH]; intros count; simpl.
  - left. reflexivity.
  - destruct (fleb (fsub count (Count b)) f0).
    + right. exists b. auto.
    + destruct (IH (fsub count (Count b))) as [E | (c & I & E)].
      * left. exact E.
      * right. exists c. auto.
Qed.

(** X4.  [Quantile] never interpolates: for every histogram and every [q],
    on any arithmetic, the result is the value of one of the bins or the
    literal [-1]; on a histogram without bins it is [-1]. *)
Theorem Quantile_is_bin_value_or_sentinel (h : WeightedHistogram F) (q : F) :
  (Quantile h q = fneg1 \/ exists b, In b (Bins h) /\ Quantile h q = Value b) /\
  (Bins h = [] -> Quantile h q = fneg1).
Proof.
  split.
  - apply quantile_scan_value_or_sentinel.
  - intros E. unfold Quantile. rewrite E. reflexivity.
Qed.

End GenericBehaviour.

Lemma Add_without_budget_panics_witness :
  Add {| Bins := [mkBin 1 2; mkBin 3 1; mkBin 7 1]%float; Maxbins := 0;
         Total := 4%float; Alpha := 0.5%float |} 2%float = Panic.
Proof.
  apply (Add_without_budget_panics
           {| Bins := [mkBin 1 2; mkBin 3 1; mkBin 7 1]%float; Maxbins := 0;
              Total := 4%float; Alpha := 0.5%float |} 2%float).
  simpl. lia.
Defined.

Lemma Add_below_budget_returns_witness :
  let h := {| Bins := [mkBin 1 2; mkBin 3 1]%float; Maxbins := 3;
              Total := 3%float; Alpha := 0.5%float |} in
  Add h 2%float
  = Ok {| Bins := Bins (add_decay h 2%float); Maxbins := Maxbins h;
          Total := sumCount (Bins (add_decay h 2%float)); Alpha := Alpha h |} /\
  (length (Bins h) <= length (Bins (add_decay h 2%float)) <= S (length (Bins h)))%nat.
Proof.
  intros h. apply (Add_below_budget_returns h 2%float). simpl. lia.
Defined.

Lemma Add_result_shape_witness :
  let h := {| Bins := [mkBin 1 2; mkBin 3 1]%float; Maxbins := 2;
              Total := 3%float; Alpha := 0.5%float |} in
  exists h',
    Add h 2%float = Ok h' /\
    Maxbins h' = Maxbins h /\ Alpha h' = Alpha h /\
    Bins h' <> [] /\
    (Z.of_nat (length (Bins h')) <= Maxbins h)%Z /\
    (length (Bins h') <= S (length (Bins h)))%nat.
Proof.
  intros h. destruct (Add h 2%float) as [h'| |] eqn:E.
  - exists h'. split; [reflexivity|]. exact (Add_result_shape h h' 2%float E).
  - vm_compute in E. discriminate E.
  - vm_compute in E. discriminate E.
Defined.

Section ScanPastEveryBin.

Context {F : Type} `{Float64 F}.

Lemma add_scan_passed_all (n : F) (bins : list (Bin F)) :
  Forall (passed n) bins ->
  add_scan n bins = (bins ++ [{| Value := n; Count := f1 |}], None).
Proof.
  induction 1 as [|b rest [E G] _ IH]; simpl.
  - reflexivity.
  - rewrite E, G, IH. reflexivity.
Qed.

Lemma add_decay_passed_all (h : WeightedHistogram F) (n : F) :
  Forall (passed n) (Bins h) ->
  Bins (add_decay h n) = Bins h ++ [{| Value := n; Count := f1 |}].
Proof.
  intros P. unfold add_decay. rewrite (add_scan_passed_all n (Bins h) P).
  reflexivity.
Qed.

End ScanPastEveryBin.

(** ** NaN samples on binary64 *)

Lemma float_eqb_nan (x : float) : PrimFloat.eqb x nan = false.
Proof.
  rewrite FloatAxioms.eqb_spec. change (Prim2SF nan) with S754_nan.
  destruct (Prim2SF x) as [s | s | | s m e]; reflexivity.
Qed.

Lemma float_ltb_nan (x : float) : PrimFloat.ltb nan x = false.
Proof.
  rewrite FloatAxioms.ltb_spec. change (Prim2SF nan) with S754_nan.
  reflexivity.
Qed.

(** X5.  On binary64 a NaN sample compares neither equal to nor below any
    bin value, so [Add] takes the append path whatever the bins are: the
    scan leaves every bin as it was (no decay) and appends a bin of value NaN
    and weight 1; below the budget this is the list [Add] returns.  Each
    further NaN adds one more such bin. *)
Theorem NaN_sample_is_appended (h : WeightedHistogram float) :
  Bins (add_decay h nan) = Bins h ++ [mkBin nan 1%float] /\
  ((Z.of_nat (length (Bins h)) < Maxbins h)%Z ->
   exists h', Add h nan = Ok h' /\ Bins h' = Bins h ++ [mkBin nan 1%float]).
Proof.
  assert (P : Forall (passed nan) (Bins h)).
  { apply Forall_forall. intros b _. split.
    - apply float_eqb_nan.
    - apply float_ltb_nan. }
  pose proof (add_decay_passed_all h nan P) as E.
  split; [exact E|].
  intros L. rewrite (Add_when_fits h nan).
  - eexists. split; [reflexivity|]. exact E.
  - rewrite E, length_app. simpl. lia.
Qed.

(** ** Where the sample goes, in exact arithmetic *)

Section ScanUpToABin.

Context {F : Type} `{Float64 F}.

Lemma add_scan_match (n : F) (pre : list (Bin F)) (b : Bin F) (post : list (Bin F)) :
  Forall (passed n) pre -> feqb (Value b) n = true ->
  add_scan n (pre ++ b :: post)
  = (pre ++ {| Value := Value b; Count := fadd (Count b) f1 |} :: post,
     Some (length pre)).
Proof.
  intros P M. induction P as [|a pre [E G] _ IH]; simpl.
  - rewrite M. reflexivity.
  - rewrite E, G, IH. reflexivity.
Qed.

Lemma add_scan_insert (n : F) (pre : list (Bin F)) (b : Bin F) (post : list (Bin F)) :
  Forall (passed n) pre -> feqb (Value b) n = false -> fgtb (Value b) n = true ->
  add_scan n (pre ++ b :: post)
  = (pre ++ {| Value := n; Count := f1 |} :: b :: post, Some (length pre)).
Proof.
  intros P M G'. induction P as [|a pre [E G] _ IH]; simpl.
  - rewrite M, G'. reflexivity.
  - rewrite E, G, IH. reflexivity.
Qed.

Lemma add_decay_eta (h : WeightedHistogram F) (n : F) :
  add_decay h n
  = {| Bins := Bins (add_decay h n); Maxbins := Maxbins h;
       Total := Total h; Alpha := Alpha h |}.
Proof.
  unfold add_decay. destruct (add_scan n (Bins h)) as [bins touched].
  reflexivity.
Qed.

Lemma add_decay_at_match (h : WeightedHistogram F) (n : F)
    (pre : list (Bin F)) (b : Bin F) (post : list (Bin F)) :
  Bins h = pre ++ b :: post -> Forall (passed n) pre ->
  feqb (Value b) n = true ->
  Bins (add_decay h n)
  = map (decayed (Alpha h)) pre
    ++ {| Value := Value b; Count := fadd (Count b) f1 |}
    :: map (decayed (Alpha h)) post.
Proof.
  intros E P M. unfold add_decay. rewrite E, (add_scan_match n pre b post P M).
  simpl Bins. apply scaleDown_split.
Qed.

Lemma add_decay_at_insert (h : WeightedHistogram F) (n : F)
    (pre : list (Bin F)) (b : Bin F) (post : list (Bin F)) :
  Bins h = pre ++ b :: post -> Forall (passed n) pre ->
  feqb (Value b) n = false -> fgtb (Value b) n = true ->
  Bins (add_decay h n)
  = map (decayed (Alpha h)) pre
    ++ {| Value := n; Count := f1 |}
    :: map (decayed (Alpha h)) (b :: post).
Proof.
  intros E P M G. unfold add_decay.
  rewrite E, (add_scan_insert n pre b post P M G).
  simpl Bins.
  apply (scaleDown_split (Alpha h) pre {| Value := n; Count := f1 |} (b :: post)).
Qed.

End ScanUpToABin.

Lemma below_passed (n : Q) (bins : list (Bin Q)) :
  Forall (fun b => Value b < n) bins -> Forall (passed n) bins.
Proof.
  intros A. eapply Forall_impl; [|exact A]. intros b L. split; numeric.
  - apply Qeq_bool_false. lra.
  - apply Qlt_bool_false. lra.
Qed.

Lemma ascending_prefix_below (pre : list (Bin Q)) (b : Bin Q) (post : list (Bin Q)) :
  ascending (pre ++ b :: post) -> Forall (fun c => Value c < Value b) pre.
Proof.
  unfold ascending. rewrite map_app. simpl. intros S.
  apply sorted_app in S. destruct S as (_ & _ & C).
  apply Forall_forall. intros c I. apply C; [now apply in_map | simpl; auto].
Qed.

(** X6.  In exact arithmetic: a sample above every bin value is appended as
    a new last bin of weight 1 and no other bin is decayed, unlike on the two
    other paths of [Add]; the sum of the weights grows by exactly 1, and while
    the bins fit the budget this is what [Add] returns. *)
Theorem Add_new_maximum_is_appended_without_decay (h : WeightedHistogram Q) (n : Q) :
  Forall (fun b => Value b < n) (Bins h) ->
  Bins (add_decay h n) = Bins h ++ [mkBin n 1] /\
  weight_sum (Bins (add_decay h n)) == weight_sum (Bins h) + 1 /\
  ((Z.of_nat (length (Bins h)) < Maxbins h)%Z ->
   exists h', Add h n = Ok h' /\ Bins h' = Bins h ++ [mkBin n 1] /\
              Total h' == weight_sum (Bins h) + 1).
Proof.
  intros A. pose proof (add_decay_passed_all h n (below_passed n _ A)) as E.
  assert (W : weight_sum (Bins (add_decay h n)) == weight_sum (Bins h) + 1).
  { rewrite E, weight_sum_app. simpl. numeric. ring. }
  repeat split; [exact E | exact W|].
  intros L. rewrite (Add_when_fits h n).
  - eexists. split; [reflexivity|]. split; [exact E|].
    simpl Total. rewrite sumCount_weight_sum. exact W.
  - rewrite E, length_app. simpl. lia.
Qed.

Lemma Add_new_maximum_is_appended_without_decay_witness :
  let h := {| Bins := [mkBin 1 2; mkBin 3 1]; Maxbins := 4;
              Total := 3; Alpha := 1 # 2 |} in
  Bins (add_decay h 5) = Bins h ++ [mkBin 5 1] /\
  weight_sum (Bins (add_decay h 5)) == weight_sum (Bins h) + 1 /\
  ((Z.of_nat (length (Bins h)) < Maxbins h)%Z ->
   exists h', Add h 5 = Ok h' /\ Bins h' = Bins h ++ [mkBin 5 1] /\
              Total h' == weight_sum (Bins h) + 1).
Proof.
  intros h. apply (Add_new_maximum_is_appended_without_decay h 5).
  repeat constructor; reflexivity.
Defined.

(** X7.  In exact arithmetic, on an ascending bin list: a sample equal to
    the value of a bin is found by the scan, no bin is created, that bin's
    weight grows by 1 and every other bin is decayed once; the values of the
    bins are unchanged. *)
Theorem Add_existing_value_increments_its_bin
    (h : WeightedHistogram Q) (n : Q) (pre : list (Bin Q)) (b : Bin Q)
    (post : list (Bin Q)) :
  ascending (Bins h) -> Bins h = pre ++ b :: post -> Value b == n ->
  Bins (add_decay h n)
  = map (decayed (Alpha h)) pre
    ++ {| Value := Value b; Count := Count b + 1 |}
    :: map (decayed (Alpha h)) post /\
  map Value (Bins (add_decay h n)) = map Value (Bins h).
Proof.
  intros S E M. rewrite E in S.
  assert (P : Forall (passed n) pre).
  { apply below_passed. pose proof (ascending_prefix_below _ _ _ S) as A.
    eapply Forall_impl; [|exact A]. simpl. intros c L. lra. }
  assert (B : Bins (add_decay h n)
              = map (decayed (Alpha h)) pre
                ++ {| Value := Value b; Count := Count b + 1 |}
                :: map (decayed (Alpha h)) post).
  { unfold add_decay. rewrite E, (add_scan_match n pre b post P).
    - simpl Bins. apply scaleDown_split.
    - numeric. now apply Qeq_bool_iff. }
  split; [exact B|].
  rewrite B, E, !map_app. simpl. now rewrite !map_Value_decayed.
Qed.

Lemma Add_existing_value_increments_its_bin_witness :
  let h := {| Bins := [mkBin 1 2; mkBin 3 1; mkBin 4 1]; Maxbins := 4;
              Total := 4; Alpha := 1 # 2 |} in
  Bins (add_decay h 3)
  = map (decayed (Alpha h)) [mkBin 1 2]
    ++ {| Value := 3; Count := 1 + 1 |}
    :: map (decayed (Alpha h)) [mkBin 4 1] /\
  map Value (Bins (add_decay h 3)) = map Value (Bins h).
Proof.
  intros h.
  apply (Add_existing_value_increments_its_bin h 3 [mkBin 1 2] (mkBin 3 1) [mkBin 4 1]).
  - unfold ascending. simpl. repeat constructor; reflexivity.
  - reflexivity.
  - reflexivity.
Defined.

(** X8.  In exact arithmetic: a sample that lies above the values of the
    bins [pre] and strictly below the value of the next bin [b] becomes a new
    bin of weight 1 between them, and every bin that was there is decayed
    once; the list is one bin longer. *)
Theorem Add_new_value_is_inserted_in_order
    (h : WeightedHistogram Q) (n : Q) (pre : list (Bin Q)) (b : Bin Q)
    (post : list (Bin Q)) :
  Bins h = pre ++ b :: post ->
  Forall (fun c => Value c < n) pre -> n < Value b ->
  Bins (add_decay h n)
  = map (decayed (Alpha h)) pre
    ++ mkBin n 1 :: map (decayed (Alpha h)) (b :: post) /\
  length (Bins (add_decay h n)) = S (length (Bins h)).
Proof.
  intros E A L.
  assert (B : Bins (add_decay h n)
              = map (decayed (Alpha h)) pre
                ++ mkBin n 1 :: map (decayed (Alpha h)) (b :: post)).
  { unfold add_decay.
    rewrite E, (add_scan_insert n pre b post (below_passed n _ A)).
    - simpl Bins. apply (scaleDown_split (Alpha h) pre (mkBin n 1) (b :: post)).
    - numeric. apply Qeq_bool_false. lra.
    - numeric. now apply Qlt_bool_iff. }
  split; [exact B|].
  rewrite B, E, !length_app. simpl. rewrite !length_map. lia.
Qed.

Lemma Add_new_value_is_inserted_in_order_witness :
  let h := {| Bins := [mkBin 1 2; mkBin 3 1; mkBin 4 1]; Maxbins := 4;
              Total := 4; Alpha := 1 # 2 |} in
  Bins (add_decay h 2)
  = map (decayed (Alpha h)) [mkBin 1 2]
    ++ mkBin 2 1 :: map (decayed (Alpha h)) [mkBin 3 1; mkBin 4 1] /\
  length (Bins (add_decay h 2)) = S (length (Bins h)).
Proof.
  intros h.
  apply (Add_new_value_is_inserted_in_order h 2 [mkBin 1 2] (mkBin 3 1) [mkBin 4 1]).
  - reflexivity.
  - repeat constructor; reflexivity.
  - reflexivity.
Defined.

(** ** Mean and variance, in exact arithmetic *)

Lemma Qsquare_nonnegative (x : Q) : 0 <= x * x.
Proof.
  destruct (Qlt_le_dec x 0) as [L|L].
  - setoid_replace (x * x) with ((- x) * (- x)) by ring.
    apply Qmult_le_0_compat; lra.
  - apply Qmult_le_0_compat; assumption.
Qed.

Lemma variance_fold_nonnegative (mean : Q) (bins : list (Bin Q)) (acc : Q) :
  Forall (fun b => 0 <= Count b) bins -> 0 <= acc ->
  0 <= fold_left (fun sum b =>
                    fadd sum (fmul (fmul (Count b) (fsub (Value b) mean))
                                   (fsub (Value b) mean)))
                 bins acc.
Proof.
  intros P. revert acc. induction P as [|b rest Cb P IH]; intros acc A; simpl.
  - exact A.
  - apply IH. numeric.
    pose proof (Qsquare_nonnegative (Value b - mean)).
    assert (0 <= Count b * ((Value b - mean) * (Value b - mean)))
      by (apply Qmult_le_0_compat; assumption).
    lra.
Qed.

(** X12.  In exact arithmetic, for a histogram whose weights are not
    negative and whose [Total] is not negative: [Variance] is never
    negative (and is 0 when [Total] is 0). *)
Theorem Variance_is_not_negative (h : WeightedHistogram Q) :
  Forall (fun b => 0 <= Count b) (Bins h) -> 0 <= Total h ->
  0 <= Variance h.
Proof.
  intros P T. unfold Variance. numeric.
  destruct (Qeq_bool (Total h) 0) eqn:E; [lra|].
  apply Qeq_bool_false in E.
  assert (Pos : 0 < Total h).
  { destruct (Qlt_le_dec 0 (Total h)) as [L|L]; [exact L|].
    exfalso. apply E. apply Qle_antisym; assumption. }
  apply Qle_shift_div_l; [exact Pos|]. rewrite Qmult_0_l.
  apply variance_fold_nonnegative; [exact P | lra].
Qed.

Lemma Variance_is_not_negative_witness :
  let h := {| Bins := [mkBin 1 1; mkBin 2 (1 # 2); mkBin 4 1];
              Maxbins := 3; Total := 5 # 2; Alpha := 1 # 2 |} in
  0 <= Variance h.
Proof.
  intros h. apply (Variance_is_not_negative h).
  - repeat constructor; discriminate.
  - discriminate.
Defined.

(** ** A budget of one bin, in exact arithmetic *)

Lemma trim_two_bins_far_apart (a b : Bin Q) (alpha t : Q) :
  f1e99 <= Value b - Value a ->
  trim {| Bins := [a; b]; Maxbins := 1; Total := t; Alpha := alpha |} = Panic.
Proof.
  intros G. unfold trim. simpl. numeric.
  replace (Qlt_bool (Value b - Value a) Q1e99) with false
    by (symmetry; now apply Qlt_bool_false).
  reflexivity.
Qed.

(** What [add_decay] makes of a single bin, by where the sample falls. *)
Lemma add_decay_single (h : WeightedHistogram Q) (b : Bin Q) (n : Q) :
  Bins h = [b] ->
  (Value b == n /\
   Bins (add_decay h n) = [{| Value := Value b; Count := Count b + 1 |}])
  \/
  (n < Value b /\ Bins (add_decay h n) = [mkBin n 1; decayed (Alpha h) b])
  \/
  (Value b < n /\ Bins (add_decay h n) = [b; mkBin n 1]).
Proof.
  intros B. destruct (Qeq_bool (Value b) n) eqn:E.
  - left. split; [now apply Qeq_bool_iff|].
    exact (add_decay_at_match h n [] b [] B (Forall_nil _) E).
  - right. pose proof E as E'. apply Qeq_bool_false in E'.
    destruct (Qlt_bool n (Value b)) eqn:L.
    + left. split; [now apply Qlt_bool_iff|].
      exact (add_decay_at_insert h n [] b [] B (Forall_nil _) E L).
    + right. apply Qlt_bool_false in L.
      assert (X : Value b < n).
      { destruct (Qlt_le_dec (Value b) n) as [X|X]; [exact X|].
        exfalso. apply E'. apply Qle_antisym; assumption. }
      split; [exact X|].
      rewrite (add_decay_passed_all h n); rewrite B; [reflexivity|].
      apply below_passed. repeat constructor. exact X.
Qed.

(** X18.  In exact arithmetic, a histogram with a budget of one bin that
    holds one bin makes [Add] panic on any sample [1e99] or more away from
    that bin's value: no difference is below the [1e99] the search for the
    closest pair starts from, [minDeltaIndex] stays 0 and [trim] indexes
    [Bins[-1]]. *)
Theorem far_sample_panics (h : WeightedHistogram Q) (b : Bin Q) (n : Q) :
  Bins h = [b] -> Maxbins h = 1%Z ->
  f1e99 <= n - Value b \/ f1e99 <= Value b - n ->
  Add h n = Panic.
Proof.
  intros B M G. unfold Add. rewrite add_decay_eta, M.
  assert (Big : 0 < Q1e99) by reflexivity. numeric.
  destruct (add_decay_single h b n B) as [[E ->] | [[L ->] | [L ->]]].
  - exfalso. destruct G; lra.
  - apply trim_two_bins_far_apart. simpl. numeric. destruct G; lra.
  - apply trim_two_bins_far_apart. simpl. numeric. destruct G; lra.
Qed.

Lemma far_sample_panics_witness :
  Add {| Bins := [mkBin 0 1]; Maxbins := 1; Total := 1; Alpha := 1 # 2 |}
      (inject_Z (10 ^ 100)) = Panic.
Proof.
  apply (far_sample_panics
           {| Bins := [mkBin 0 1]; Maxbins := 1; Total := 1; Alpha := 1 # 2 |}
           (mkBin 0 1) (inject_Z (10 ^ 100))).
  - reflexivity.
  - reflexivity.
  - left. vm_compute. discriminate.
Defined.

(** ** Rendering *)

Lemma string_length_append (a b : String.string) :
  String.length (String.append a b) = (String.length a + String.length b)%nat.
Proof.
  induction a as [|c a IH]; simpl.
  - reflexivity.
  - now rewrite IH.
Qed.

Lemma dots_length (k : nat) : String.length (dots k) = k.
Proof.
  induction k as [|k IH]; simpl.
  - reflexivity.
  - rewrite string_length_append, IH. simpl. lia.
Qed.

Section RenderingSize.

Context {F : Type} `{Float64 F}.
Variable show : F -> String.string.
Variable toInt : F -> Z.
Variable f200 : F.

(** The characters one bin contributes: its printed value, a space, a tab,
    a space, its bar and a newline. *)
Definition line_length (h : WeightedHistogram F) (b : Bin F) : nat :=
  (String.length (show (Value b)) + 4 + bar_length toInt f200 h b)%nat.

Lemma String_fold_length (h : WeightedHistogram F) (bins : list (Bin F))
    (acc : String.string) :
  String.length
    (fold_left
       (fun str b =>
          String.append str
            (Sprintln3 (show (Value b)) tab (bar toInt f200 h b)))
       bins acc)
  = (String.length acc + list_sum (map (line_length h) bins))%nat.
Proof.
  revert acc. induction bins as [|b rest IH]; intros acc; simpl.
  - lia.
  - rewrite IH. unfold Sprintln3, line_length, bar.
    rewrite !string_length_append, dots_length. simpl. lia.
Qed.

Lemma String_length (h : WeightedHistogram F) :
  String.length (String_ show toInt f200 h)
  = (8 + String.length (show (Total h))
     + list_sum (map (line_length h) (Bins h)))%nat.
Proof.
  unfold String_. rewrite String_fold_length.
  unfold Sprintln2. rewrite !string_length_append.
  change (String.length String.EmptyString) with 0%nat.
  change (String.length Total_label) with 6%nat.
  change (String.length space) with 1%nat.
  change (String.length newline) with 1%nat.
  lia.
Qed.

End RenderingSize.

Lemma Qtruncate_below (x : Q) :
  0 <= x -> inject_Z (Z.of_nat (Z.to_nat (Qtruncate x))) <= x.
Proof.
  intros P. destruct x as [a d]. unfold Qtruncate. simpl Qnum; simpl Qden.
  assert (A : (0 <= a)%Z).
  { unfold Qle in P. simpl in P. lia. }
  rewrite Z.quot_div_nonneg by lia.
  rewrite Z2Nat.id by (apply Z.div_pos; lia).
  exact (Qround.Qfloor_le (a # d)).
Qed.

Lemma bars_below_share (h : WeightedHistogram Q) (bins : list (Bin Q)) :
  Forall (fun b => 0 <= Count b) bins -> 0 < Total h ->
  inject_Z (Z.of_nat (list_sum (map (bar_length Qtruncate 200 h) bins)))
  <= weight_sum bins / Total h * 200.
Proof.
  intros P T. induction P as [|b rest Cb P IH]; simpl.
  - unfold Qdiv. rewrite !Qmult_0_l. apply Qle_refl.
  - rewrite Nat2Z.inj_add, inject_Z_plus.
    assert (X : 0 <= Count b / Total h * 200).
    { apply Qmult_le_0_compat; [|discriminate].
      apply Qle_shift_div_l; [exact T | lra]. }
    pose proof (Qtruncate_below _ X) as B.
    assert (E : (Count b + weight_sum rest) / Total h * 200
                == Count b / Total h * 200 + weight_sum rest / Total h * 200)
      by (field; lra).
    rewrite E. unfold bar_length at 1. numeric. lra.
Qed.

(** X20.  [String] on exact values, with [int(x)] truncating toward zero and
    any printing [show] of a number.  The text has 8 characters for the
    header plus the printed total, and for each bin its printed value, 4
    separator characters and its bar.  When the weights are not negative and
    [Total] is their positive sum, the bars of all bins together hold at most
    200 dots. *)
Theorem String_size_and_bars
    (show : Q -> String.string) (h : WeightedHistogram Q) :
  Forall (fun b => 0 <= Count b) (Bins h) -> 0 < Total h ->
  Total h == weight_sum (Bins h) ->
  String.length (String_ show Qtruncate 200%Q h)
  = (8 + String.length (show (Total h))
     + list_sum (map (fun b => String.length (show (Value b)) + 4
                               + String.length (bar Qtruncate 200%Q h b))
                     (Bins h)))%nat /\
  (list_sum (map (fun b => String.length (bar Qtruncate 200%Q h b)) (Bins h))
   <= 200)%nat.
Proof.
  intros P T E. split.
  - rewrite String_length. f_equal. f_equal. apply map_ext.
    intros b. unfold line_length, bar. now rewrite dots_length.
  - pose proof (bars_below_share h (Bins h) P T) as B.
    assert (X : weight_sum (Bins h) / Total h * 200 == inject_Z 200).
    { rewrite <- E. change (inject_Z 200) with 200. field. lra. }
    rewrite X in B. rewrite <- Zle_Qle in B.
    erewrite map_ext; [|intros b; unfold bar; apply dots_length].
    lia.
Qed.

Lemma String_size_and_bars_witness :
  let show := fun _ : Q => String.EmptyString in
  let h := {| Bins := [mkBin 1 1; mkBin 2 (1 # 2); mkBin 4 1];
              Maxbins := 3; Total := 5 # 2; Alpha := 1 # 2 |} in
  String.length (String_ show Qtruncate 200%Q h)
  = (8 + String.length (show (Total h))
     + list_sum (map (fun b => String.length (show (Value b)) + 4
                               + String.length (bar Qtruncate 200%Q h b))
                     (Bins h)))%nat /\
  (list_sum (map (fun b => String.length (bar Qtruncate 200%Q h b)) (Bins h))
   <= 200)%nat.
Proof.
  intros show h. apply (String_size_and_bars show h).
  - repeat constructor; discriminate.
  - reflexivity.
  - reflexivity.
Defined.

(** ** [ewma] and [scaleDown] *)

Section ScaleDown.

Context {F : Type} `{Float64 F}.

Lemma scaleDown_from_nth (alpha : F) (except i : nat) (bins : list (Bin F))
    (j : nat) (b : Bin F) :
  nth_error bins j = Some b ->
  nth_error (scaleDown_from alpha except i bins) j
  = Some (if Nat.eqb (i + j) except then b else decayed alpha b).
Proof.
  revert i j. induction bins as [|a rest IH]; intros i j E.
  - destruct j; discriminate.
  - destruct j as [|j]; simpl in *.
    + inversion E; subst. rewrite Nat.add_0_r.
      destruct (Nat.eqb i except); reflexivity.
    + rewrite (IH (S i) j E). now rewrite Nat.add_succ_comm.
Qed.

Lemma scaleDown_from_length (alpha : F) (except i : nat) (bins : list (Bin F)) :
  length (scaleDown_from alpha except i bins) = length bins.
Proof.
  revert i. induction bins as [|a rest IH]; intros i; simpl; [reflexivity|].
  now rewrite IH.
Qed.

Lemma scaleDown_from_beyond (alpha : F) (except i : nat) (bins : list (Bin F)) :
  (i + length bins <= except)%nat ->
  scaleDown_from alpha except i bins = map (decayed alpha) bins.
Proof.
  revert i. induction bins as [|a rest IH]; intros i L; simpl in *; [reflexivity|].
  destruct (Nat.eqb_spec i except); [lia|].
  f_equal. apply IH. lia.
Qed.

(** X22.  On any arithmetic, [scaleDown] keeps the number of bins and every
    value; the bin at index [except] is left as it is and every other bin
    has its weight replaced by [ewma(weight, 0, alpha)]; with [except] past
    the end of the list every bin is decayed. *)
Theorem scaleDown_spares_one_index (alpha : F) (except : nat) (bins : list (Bin F)) :
  length (scaleDown alpha except bins) = length bins /\
  map Value (scaleDown alpha except bins) = map Value bins /\
  (forall j b, nth_error bins j = Some b ->
     nth_error (scaleDown alpha except bins) j
     = Some (if Nat.eqb j except then b
             else {| Value := Value b; Count := ewma (Count b) f0 alpha |})) /\
  ((length bins <= except)%nat ->
   scaleDown alpha except bins = map (decayed alpha) bins).
Proof.
  unfold scaleDown. split; [apply scaleDown_from_length|]. split; [|split].
  - generalize 0%nat. induction bins as [|a rest IH]; intros i; simpl.
    + reflexivity.
    + rewrite IH. destruct (Nat.eqb i except); reflexivity.
  - intros j b E. exact (scaleDown_from_nth alpha except 0 bins j b E).
  - intros L. apply scaleDown_from_beyond. simpl. exact L.
Qed.

(** X24.  On any arithmetic, compaction is idempotent: when [trim] returns,
    a second [trim] on its result returns too, merges nothing and leaves the
    same bins; only [Total] is summed again. *)
Theorem trim_twice (h h' : WeightedHistogram F) :
  trim h = Ok h' ->
  trim h' = Ok {| Bins := Bins h'; Maxbins := Maxbins h';
                  Total := sumCount (Bins h'); Alpha := Alpha h' |}.
Proof.
  intros E. apply trim_Ok in E. destruct E as (L & M & _).
  pose proof (trim_loop_within_budget _ _ _ _ L) as B.
  unfold trim. rewrite trim_loop_fits by (rewrite M; exact B). reflexivity.
Qed.

End ScaleDown.

Lemma trim_twice_witness :
  let h := {| Bins := [mkBin 1 1; mkBin 2 1; mkBin 4 1]%float; Maxbins := 2;
              Total := 0%float; Alpha := 0.5%float |} in
  exists h',
    trim h = Ok h' /\
    trim h' = Ok {| Bins := Bins h'; Maxbins := Maxbins h';
                    Total := sumCount (Bins h'); Alpha := Alpha h' |}.
Proof.
  intros h. destruct (trim h) as [h'| |] eqn:E.
  - exists h'. split; [reflexivity|]. exact (trim_twice h h' E).
  - vm_compute in E. discriminate E.
  - vm_compute in E. discriminate E.
Defined.

(** ** A NaN quantile on binary64 *)

Lemma float_mul_nan (x : float) : PrimFloat.mul nan x = nan.
Proof.
  apply Prim2SF_inj. rewrite FloatAxioms.mul_spec.
  change (Prim2SF nan) with S754_nan. reflexivity.
Qed.

Lemma float_sub_nan (x : float) : PrimFloat.sub nan x = nan.
Proof.
  apply Prim2SF_inj. rewrite FloatAxioms.sub_spec.
  change (Prim2SF nan) with S754_nan. reflexivity.
Qed.

Lemma float_leb_nan (x : float) : PrimFloat.leb nan x = false.
Proof.
  rewrite FloatAxioms.leb_spec. change (Prim2SF nan) with S754_nan. reflexivity.
Qed.

Lemma quantile_scan_nan (bins : list (Bin float)) :
  quantile_scan nan bins = (-1)%float.
Proof.
  induction bins as [|b rest IH]; simpl.
  - reflexivity.
  - rewrite float_sub_nan, float_leb_nan. exact IH.
Qed.

(** X25.  On binary64, [Quantile] of a NaN [q] is the sentinel [-1] for
    every histogram: the running count is NaN from the start and never
    compares [<= 0]. *)
Theorem Quantile_of_NaN (h : WeightedHistogram float) :
  Quantile h nan = (-1)%float.
Proof.
  unfold Quantile. change (fmul nan (Total h)) with (PrimFloat.mul nan (Total h)).
  rewrite float_mul_nan. apply quantile_scan_nan.
Qed.
